(** * kaggleRAG: structured answer extraction and resilient querying

    A shallow embedding of [answer_parser.py] and [rag_retry.py].

    Python values are modelled as follows.
    - [str] is a sequence of Unicode code points ([list N]); [len] is the
      length of that list, slicing is [take].
    - objects produced by [json.loads] and handed to the pydantic model are
      values of [pyval].
    - exceptions are values of [exn]; code that may raise returns a [result].
    - [float] quantities (delays, quality scores, rates) are exact rationals.
    - the interpreter's and the libraries' behaviour that the repository does
      not define (the compiled regular expressions, [str.lower], [str()] on a
      non-string, the upstream service) enters as Section variables. *)

From Stdlib Require Import List NArith ZArith QArith Lia Bool String Ascii.
From stdpp Require Import base list gmap.

Set Warnings "-register-all".
Local Open Scope N_scope.

(** ** Python strings *)

Module PyStr.

Abbreviation char := N.
Abbreviation str := (list N).

(** An ASCII literal of the source, as code points. *)
Definition lit (s : string) : str := map N_of_ascii (list_ascii_of_string s).

(** [a == b] *)
Fixpoint eqb (a b : str) : bool :=
  match a, b with
  | [], [] => true
  | x :: a', y :: b' => (x =? y) && eqb a' b'
  | _, _ => false
  end.

(** [str.isspace] on one code point (CPython's [Py_UNICODE_ISSPACE]); the
    same class is [\s] of [re] on [str] patterns. *)
Definition isspace (c : char) : bool :=
  ((9 <=? c) && (c <=? 13)) || ((28 <=? c) && (c <=? 32))
  || (c =? 0x85) || (c =? 0xA0) || (c =? 0x1680)
  || ((0x2000 <=? c) && (c <=? 0x200A))
  || (c =? 0x2028) || (c =? 0x2029) || (c =? 0x202F) || (c =? 0x205F)
  || (c =? 0x3000).

Fixpoint drop_while (p : char -> bool) (s : str) : str :=
  match s with
  | [] => []
  | c :: r => if p c then drop_while p r else s
  end.

Definition strip_with (p : char -> bool) (s : str) : str :=
  rev (drop_while p (rev (drop_while p s))).

(** A literal written with apostrophes where the text has double quotes. *)
Definition jlit (s : string) : str :=
  map (fun c => if c =? 39 then 34 else c) (lit s).

(** [s.strip()] *)
Definition strip (s : str) : str := strip_with isspace s.

Definition mem (c : char) (cs : str) : bool := existsb (N.eqb c) cs.

(** [s.strip(chars)] *)
Definition strip_chars (cs : str) (s : str) : str :=
  strip_with (fun c => mem c cs) s.

(** [s.split(sep)] for a one-character separator: never the empty list. *)
Fixpoint split (sep : char) (s : str) : list str :=
  match s with
  | [] => [[]]
  | c :: r =>
      if c =? sep then [] :: split sep r
      else match split sep r with
           | [] => [[c]]
           | w :: ws => (c :: w) :: ws
           end
  end.

Fixpoint startswith (p s : str) : bool :=
  match p, s with
  | [], _ => true
  | _ :: _, [] => false
  | a :: p', b :: s' => (a =? b) && startswith p' s'
  end.

Definition endswith (p s : str) : bool := startswith (rev p) (rev s).

(** [sub in s] *)
Fixpoint contains (sub s : str) : bool :=
  startswith sub s ||
  match s with
  | [] => false
  | _ :: r => contains sub r
  end.

(** [re.sub(r'\s+', ' ', s)]: every maximal run of white space becomes one
    space. *)
Fixpoint collapse_from (in_ws : bool) (s : str) : str :=
  match s with
  | [] => []
  | c :: r =>
      if isspace c
      then (if in_ws then collapse_from true r else 32 :: collapse_from true r)
      else c :: collapse_from false r
  end.

Definition collapse_ws (s : str) : str := collapse_from false s.

(** [sep.join(parts)] *)
Fixpoint join (sep : str) (parts : list str) : str :=
  match parts with
  | [] => []
  | [p] => p
  | p :: ps => p ++ sep ++ join sep ps
  end.

(** A code point that is a Unicode scalar value (not a surrogate). *)
Definition is_scalar (c : char) : bool :=
  (c <? 0xD800) || ((0xE000 <=? c) && (c <? 0x110000)).

Definition well_formed (s : str) : bool := forallb is_scalar s.

End PyStr.

Import PyStr.

(** ** Python values, exceptions *)

(** What [json.loads] builds and what a pydantic model receives.  A number
    keeps its literal text; a [dict] keeps its items in source order. *)
Inductive pyval :=
| PNone
| PBool (b : bool)
| PNum (lexeme : str)
| PStr (s : str)
| PList (items : list pyval)
| PDict (items : list (str * pyval)).

(** Exceptions (instances of [Exception]) that reach the modelled code. *)
Inductive exn :=
| JSONDecodeError
| ValidationError
| ZeroDivisionError
| AttributeError
| ExternalError (payload : str).

Inductive result (A : Type) :=
| Ok (a : A)
| Raise (e : exn).
Arguments Ok {A} a.
Arguments Raise {A} e.

(** Sequencing: an exception raised by the first computation propagates. *)
#[global] Instance result_bind : MBind result := fun A B k m =>
  match m with
  | Ok a => k a
  | Raise e => Raise e
  end.

#[global] Instance result_ret : MRet result := fun A a => Ok a.

(** [d.get(key, default)]: the last item written under [key] wins. *)
Fixpoint dict_get (items : list (str * pyval)) (key : str) (default : pyval)
  : pyval :=
  match items with
  | [] => default
  | (k, v) :: rest =>
      let later := dict_get rest key default in
      if PyStr.eqb k key
      then (if existsb (fun kv => PyStr.eqb (fst kv) key) rest then later else v)
      else later
  end.

(** ** The [json] module, as far as the code uses it *)

Module Json.

Definition hexdigit (d : N) : char := if d <? 10 then 48 + d else 87 + d.

(** ['{0:04x}'.format(n)] *)
Definition hex4 (n : N) : str :=
  [hexdigit (n / 4096); hexdigit ((n / 256) mod 16);
   hexdigit ((n / 16) mod 16); hexdigit (n mod 16)].

Definition u_escape (n : N) : str := 92 :: 117 :: hex4 n.

(** One character of [encode_basestring_ascii]. *)
Definition escape_char (c : char) : str :=
  if c =? 34 then [92; 34]
  else if c =? 92 then [92; 92]
  else if c =? 10 then [92; 110]
  else if c =? 13 then [92; 114]
  else if c =? 9 then [92; 116]
  else if c =? 8 then [92; 98]
  else if c =? 12 then [92; 102]
  else if (32 <=? c) && (c <=? 126) then [c]
  else if c <? 0x10000 then u_escape c
  else
    let n := c - 0x10000 in
    u_escape (N.lor 0xd800 (N.land (N.shiftr n 10) 0x3ff))
    ++ u_escape (N.lor 0xdc00 (N.land n 0x3ff)).

Definition encode_basestring_ascii (s : str) : str :=
  34 :: flat_map escape_char s ++ [34].

(** [json.dumps(l)] for a list of strings, default separators. *)
Definition dumps_list (l : list str) : str :=
  91 :: join [44; 32] (map encode_basestring_ascii l) ++ [93].

Definition unhex (c : char) : option N :=
  if (48 <=? c) && (c <=? 57) then Some (c - 48)
  else if (97 <=? c) && (c <=? 102) then Some (c - 87)
  else if (65 <=? c) && (c <=? 70) then Some (c - 55)
  else None.

Definition unhex4 (a b c d : char) : option N :=
  match unhex a, unhex b, unhex c, unhex d with
  | Some x, Some y, Some z, Some w => Some (x * 4096 + y * 256 + z * 16 + w)
  | _, _, _, _ => None
  end.

Definition is_high_surrogate (c : N) : bool := (0xd800 <=? c) && (c <=? 0xdbff).
Definition is_low_surrogate (c : N) : bool := (0xdc00 <=? c) && (c <=? 0xdfff).

Definition join_surrogates (hi lo : N) : N :=
  0x10000 + N.lor (N.shiftl (hi - 0xd800) 10) (lo - 0xdc00).

(** A simple escape [\c]. *)
Definition backslash (c : char) : option char :=
  if c =? 34 then Some 34
  else if c =? 92 then Some 92
  else if c =? 47 then Some 47
  else if c =? 98 then Some 8
  else if c =? 102 then Some 12
  else if c =? 110 then Some 10
  else if c =? 114 then Some 13
  else if c =? 116 then Some 9
  else None.

Definition cons_char (c : char) (r : option (str * str)) : option (str * str) :=
  match r with
  | Some (s, rest) => Some (c :: s, rest)
  | None => None
  end.

(** [scanstring] (strict): the text after an opening quote, up to the closing
    one.  [None] is a decoding error. *)
Fixpoint scanstring (s : str) : option (str * str) :=
  match s with
  | [] => None
  | c :: r =>
      if c =? 34 then Some ([], r)
      else if c <? 32 then None
      else if c =? 92 then
        match r with
        | [] => None
        | e :: r1 =>
            if e =? 117 then
              match r1 with
              | h1 :: h2 :: h3 :: h4 :: r2 =>
                  match unhex4 h1 h2 h3 h4 with
                  | None => None
                  | Some uni =>
                      match r2 with
                      | b :: u :: l1 :: l2 :: l3 :: l4 :: r3 =>
                          if is_high_surrogate uni && (b =? 92) && (u =? 117)
                          then
                            match unhex4 l1 l2 l3 l4 with
                            | None => None
                            | Some uni2 =>
                                if is_low_surrogate uni2
                                then cons_char (join_surrogates uni uni2)
                                               (scanstring r3)
                                else cons_char uni (scanstring r2)
                            end
                          else cons_char uni (scanstring r2)
                      | _ => cons_char uni (scanstring r2)
                      end
                  end
              | _ => None
              end
            else
              match backslash e with
              | Some d => cons_char d (scanstring r1)
              | None => None
              end
        end
      else cons_char c (scanstring r)
  end.

Definition is_json_ws (c : char) : bool :=
  (c =? 32) || (c =? 9) || (c =? 10) || (c =? 13).

Definition skip_ws (s : str) : str := drop_while is_json_ws s.

Definition is_digit (c : char) : bool := (48 <=? c) && (c <=? 57).

Fixpoint span_digits (s : str) : str * str :=
  match s with
  | [] => ([], [])
  | c :: r =>
      if is_digit c
      then let '(ds, rest) := span_digits r in (c :: ds, rest)
      else ([], s)
  end.

(** The longest prefix that is a JSON number: an optional minus sign, an
    integer part without leading zeros, then an optional fraction and an
    optional exponent, each kept only when it has a digit. *)
Definition scan_number (s : str) : option (str * str) :=
  let '(sign, r0) :=
    match s with
    | c :: r => if c =? 45 then ([45], r) else ([], s)
    | [] => ([], s)
    end in
  match r0 with
  | [] => None
  | c :: r =>
      if negb (is_digit c) then None
      else
        let '(int, r1) :=
          if c =? 48 then ([48], r) else span_digits r0 in
        let '(frac, r2) :=
          match r1 with
          | d :: r' =>
              if d =? 46 then
                match span_digits r' with
                | ([], _) => ([], r1)
                | (ds, rest) => (46 :: ds, rest)
                end
              else ([], r1)
          | [] => ([], r1)
          end in
        let '(exp, r3) :=
          match r2 with
          | e :: r' =>
              if (e =? 101) || (e =? 69) then
                let '(sg, r'') :=
                  match r' with
                  | g :: t => if (g =? 43) || (g =? 45) then ([g], t) else ([], r')
                  | [] => ([], r')
                  end in
                match span_digits r'' with
                | ([], _) => ([], r2)
                | (ds, rest) => (e :: sg ++ ds, rest)
                end
              else ([], r2)
          | [] => ([], r2)
          end in
        Some (sign ++ int ++ frac ++ exp, r3)
  end.

Definition literal (name : string) (v : pyval) (s : str)
  : option (pyval * str) :=
  if startswith (lit name) s
  then Some (v, drop (List.length (lit name)) s)
  else None.

(** The scanner: one value at the head of [s].  [fuel] bounds the nesting of
    calls. *)
Fixpoint parse_value (fuel : nat) (s : str) : option (pyval * str) :=
  match fuel with
  | O => None
  | S f =>
      match s with
      | [] => None
      | c :: r =>
          if c =? 34 then
            match scanstring r with
            | Some (t, rest) => Some (PStr t, rest)
            | None => None
            end
          else if c =? 123 then
            match skip_ws r with
            | [] => None
            | d :: r' =>
                if d =? 125 then Some (PDict [], r')
                else match parse_members f (d :: r') with
                     | Some (kvs, rest) => Some (PDict kvs, rest)
                     | None => None
                     end
            end
          else if c =? 91 then
            match skip_ws r with
            | [] => None
            | d :: r' =>
                if d =? 93 then Some (PList [], r')
                else match parse_elems f (d :: r') with
                     | Some (vs, rest) => Some (PList vs, rest)
                     | None => None
                     end
            end
          else if c =? 110 then literal "null" PNone s
          else if c =? 116 then literal "true" (PBool true) s
          else if c =? 102 then literal "false" (PBool false) s
          else if c =? 78 then literal "NaN" (PNum (lit "NaN")) s
          else if c =? 73 then literal "Infinity" (PNum (lit "Infinity")) s
          else if startswith (lit "-Infinity") s
          then literal "-Infinity" (PNum (lit "-Infinity")) s
          else match scan_number s with
               | Some (lx, rest) => Some (PNum lx, rest)
               | None => None
               end
      end
  end
with parse_elems (fuel : nat) (s : str) : option (list pyval * str) :=
  match fuel with
  | O => None
  | S f =>
      match parse_value f s with
      | None => None
      | Some (v, r) =>
          match skip_ws r with
          | [] => None
          | d :: r' =>
              if d =? 93 then Some ([v], r')
              else if d =? 44 then
                match parse_elems f (skip_ws r') with
                | Some (vs, rest) => Some (v :: vs, rest)
                | None => None
                end
              else None
          end
      end
  end
with parse_members (fuel : nat) (s : str) : option (list (str * pyval) * str) :=
  match fuel with
  | O => None
  | S f =>
      match s with
      | [] => None
      | q :: r =>
          if negb (q =? 34) then None
          else
            match scanstring r with
            | None => None
            | Some (k, r1) =>
                match skip_ws r1 with
                | [] => None
                | col :: r2 =>
                    if negb (col =? 58) then None
                    else
                      match parse_value f (skip_ws r2) with
                      | None => None
                      | Some (v, r3) =>
                          match skip_ws r3 with
                          | [] => None
                          | d :: r4 =>
                              if d =? 125 then Some ([(k, v)], r4)
                              else if d =? 44 then
                                match parse_members f (skip_ws r4) with
                                | Some (kvs, rest) => Some ((k, v) :: kvs, rest)
                                | None => None
                                end
                              else None
                          end
                      end
                end
            end
      end
  end.

(** [json.loads(s)]: [None] stands for [json.JSONDecodeError].  A value
    calls for its elements, and a list of elements for its first value, on
    text that is at least one character shorter each second call, so twice
    the length of the text bounds the nesting.  The recursion limit of the
    interpreter is not modelled. *)
Definition loads (s : str) : option pyval :=
  match s with
  | c :: _ => if c =? 0xFEFF then None else
      match parse_value (2 * List.length s + 2) (skip_ws s) with
      | Some (v, rest) =>
          match skip_ws rest with
          | [] => Some v
          | _ :: _ => None
          end
      | None => None
      end
  | [] => None
  end.

End Json.

(** ** The answer record *)

Record RAGAnswer := {
  id : str;
  question : str;
  answer : str;
  answer_value : str;
  answer_unit : str;
  ref_id : list str;
  supporting_materials : str;
  explanation : str
}.

Inductive field :=
| FAnswer | FAnswerValue | FAnswerUnit | FRefId | FSupporting | FExplanation.

Definition all_fields : list field :=
  [FAnswer; FAnswerValue; FAnswerUnit; FRefId; FSupporting; FExplanation].

Definition field_key (f : field) : str :=
  match f with
  | FAnswer => lit "answer"
  | FAnswerValue => lit "answer_value"
  | FAnswerUnit => lit "answer_unit"
  | FRefId => lit "ref_id"
  | FSupporting => lit "supporting_materials"
  | FExplanation => lit "explanation"
  end.

(** The two tables of compiled patterns of [AnswerParser]. *)
Inductive pattern :=
| Primary (f : field)
| Fallback (f : field).

Definition is_blank : str := lit "is_blank".

(** The literals of [rag_retry.py], as code points.  [failure_marker] is the
    source's answer of a failure record (in English: query failed). *)
Definition failure_marker : str := [0x67e5; 0x8be2; 0x5931; 0x8d25].
Definition format_failure : str := [0x683c; 0x5f0f; 0x89e3; 0x6790; 0x5931; 0x8d25].
Definition parse_failure : str := [0x89e3; 0x6790; 0x5931; 0x8d25].
Definition last_response_label : str := [0x6700; 0x540e; 0x54cd; 0x5e94; 0x3a; 0x20].
Definition no_response : str := [0x65e0; 0x54cd; 0x5e94].
Definition ellipsis : str := lit "...".

Definition refusal_sentence : str :=
  lit "Unable to answer with confidence based on the provided documents.".

Definition nonempty {A} (l : list A) : bool :=
  match l with [] => false | _ :: _ => true end.

(** What [last_error] holds: an exception caught by the loop, or the text
    handed over by the format-failure exit. *)
Inductive err :=
| ErrExn (e : exn)
| ErrText (s : str).

(** The events of one query that the outside can observe. *)
Inductive event :=
| EAsk (question : str) (prompt_template : option str)
| ESleep (delay : Q).

Definition is_ask (e : event) : bool :=
  match e with EAsk _ _ => true | ESleep _ => false end.

Definition ask_count (log : list event) : nat := List.length (List.filter is_ask log).

Record RAGRetryQuery := {
  max_retries : Z;
  retry_delay : Q;
  quality_threshold : Q
}.

(** What one pass through the loop body of [query_with_retry] decides. *)
Inductive body_out :=
| BReturn (r : RAGAnswer)
| BNext (last_response : option str) (last_error : option err)
        (backoff : option Q).

Record statistics := {
  total : Z;
  successful : Z;
  failed : Z;
  success_rate : Q;
  average_quality_score : Q;
  stat_quality_threshold : Q
}.

(** [a / b] on numbers. *)
Definition py_div (a b : Q) : result Q :=
  if Qeq_bool b 0 then Raise ZeroDivisionError else Ok (a / b)%Q.

(** [first '{' .. last '}'], the match of [\{.*\}] with [re.DOTALL]. *)
Definition brace_span (text : str) : option str :=
  match drop_while (fun c => negb (c =? 123)) text with
  | [] => None
  | _ :: r =>
      match rev (drop_while (fun c => negb (c =? 125)) (rev r)) with
      | [] => None
      | t => Some (123 :: t)
      end
  end.

(** ** [arxiv_to_paper_mapping.py] *)

Module Arxiv.

(** The items of the dictionary literal, in the order written. *)
Definition entries : list (str * str) :=
  [
   (lit "2505.06371", lit "chung2025");
   (lit "2104.10350", lit "patterson2021");
   (lit "2405.01814", lit "chen2024");
   (lit "2310.03003", lit "samsi2024");
   (lit "1907.10597", lit "schwartz2019");
   (lit "2304.03271", lit "li2025b");
   (lit "2108.06738", lit "wu2021b");
   (lit "2206.05229", lit "strubell2019");
   (lit "2501.05899", lit "khan2025");
   (lit "2504.17674", lit "luccioni2025b");
   (lit "2405.21015", lit "erben2023");
   (lit "2506.15572", lit "ebert2024");
   (lit "2504.06307", lit "khan2025");
   (lit "2023-amazon-sustainability-report", lit "amazon2023");
   (lit "2412.06288", lit "han2024");
   (lit "2111.00364", lit "zschache2025");
   (lit "2211.06318", lit "luccioni2025a");
   (lit "2306.03163", lit "erben2023");
   (lit "2309.03852", lit "wu2021a");
   (lit "2408.04693", lit "xia2024");
   (lit "2404.07413", lit "shen2024");
   (lit "2404.11816", lit "jegham2025");
   (lit "2504.11816", lit "jegham2025");
   (lit "2410.06681", lit "ebert2024");
   (lit "1906.02243", lit "strubell2019");
   (lit "2503.05804", lit "chung2025");
   (lit "2504.06307", lit "khan2025");
   (lit "2501.16548", lit "li2025b");
   (lit "2504.11816", lit "jegham2025");
   (lit "2311.16863", lit "luccioni2025b");
   (lit "2505.09598", lit "chung2025");
   (lit "2505.06371", lit "chung2025")
  ].

(** A dictionary built from its items: a later item replaces an earlier one
    with the same key. *)
Definition dict_of (items : list (str * str)) : gmap (list N) (list N) :=
  fold_left (fun m kv => <[fst kv := snd kv]> m) items ∅.

Definition ARXIV_TO_PAPER_MAPPING : gmap (list N) (list N) := dict_of entries.

(** The functions read and change a module-level table, which is passed
    here. *)
Definition get_paper_id_from_arxiv (table : gmap (list N) (list N))
  (arxiv_id : str) : str :=
  default [] (table !! arxiv_id).

Definition add_mapping (table : gmap (list N) (list N))
  (arxiv_id paper_id : str) : gmap (list N) (list N) :=
  <[arxiv_id := paper_id]> table.

End Arxiv.

(** ** The command line of the scripts *)

(** [seq[i:j]] on a sequence of length [len]: where an index points. *)
Definition slice_index (len i : Z) : Z :=
  if (i <? 0)%Z then Z.max 0 (len + i) else Z.min i len.

(** [df.iloc[start:]] *)
Definition iloc_from {A} (start : Z) (df : list A) : list A :=
  drop (Z.to_nat (slice_index (Z.of_nat (List.length df)) start)) df.

(** [df.iloc[start:stop]] *)
Definition iloc {A} (start stop : Z) (df : list A) : list A :=
  let len := Z.of_nat (List.length df) in
  let lo := slice_index len start in
  let hi := slice_index len stop in
  take (Z.to_nat (hi - lo)) (drop (Z.to_nat lo) df).

(** The number of questions asked for on the command line.  An argument is
    [None] when [int] rejects it; the list holds the arguments after the
    name of the script. *)
Definition arg_num_questions (args : list (option Z)) : option Z :=
  match args with
  | Some n :: _ => if (n <=? 0)%Z then None else Some n
  | _ => None
  end.

(** The first row, as [enhanced_rag_test.py] and [simple_rag_test.py] read
    it: counted from 0. *)
Definition arg_start_row (args : list (option Z)) : Z :=
  match args with
  | _ :: Some n :: _ => if (n <? 0)%Z then 0%Z else n
  | _ => 0%Z
  end.

(** The first question, as [fill_test_set.py] reads it: counted from 1. *)
Definition arg_start_question (args : list (option Z)) : Z :=
  match args with
  | _ :: Some n :: _ => if (n <? 1)%Z then 1%Z else n
  | _ => 1%Z
  end.

(** The rows a script processes. *)
Definition select_rows {A} (num_questions : option Z) (start_row : Z)
  (df : list A) : list A :=
  let len := Z.of_nat (List.length df) in
  match num_questions with
  | None => if (0 <? start_row)%Z then iloc_from start_row df else df
  | Some n =>
      let end_row := (start_row + n)%Z in
      if (len <=? start_row)%Z then df
      else if (len <? end_row)%Z then iloc_from start_row df
      else iloc start_row end_row df
  end.

Definition rows_of_test {A} (args : list (option Z)) (df : list A) : list A :=
  select_rows (arg_num_questions args) (arg_start_row args) df.

Definition rows_of_fill {A} (args : list (option Z)) (df : list A) : list A :=
  select_rows (arg_num_questions args) (arg_start_question args - 1)%Z df.

(** One row of the question table. *)
Record row := {
  row_id : str;
  row_question : str;
  row_answer_unit : str
}.

(** What [test_batch] does, question by question. *)
Inductive batch_event :=
| BQuestion (question_id : str) (log : list event)
| BPause (delay : Q).

(** One item of a batch: the dictionary with keys [id] and [question]. *)
Record question_data := {
  q_id : str;
  q_question : str
}.

Record BatchRAGQuery := {
  query_processor : RAGRetryQuery;
  concurrent_limit : Z
}.

(** ** A small concrete environment

    Closed examples need one environment to run in.  The service is
    scripted; of the patterns only the primary [Answer:] label at the start
    of the text is recognised. *)

Module Demo.

Definition lower_char (c : char) : char :=
  if (65 <=? c) && (c <=? 90) then c + 32 else c.

Definition str_lower (s : str) : str := map lower_char s.

Definition re_search (p : pattern) (text : str) : option str :=
  match p with
  | Primary FAnswer =>
      if startswith (lit "Answer: ") text
      then match split 10 (drop 8 text) with
           | l :: _ => if nonempty l then Some l else None
           | [] => None
           end
      else None
  | _ => None
  end.

Definition py_str (v : pyval) : str := lit "<object>".
Definition num_truthy (lexeme : str) : bool := true.
Definition pyd_coerce_scalar (v : pyval) : option str := None.

Definition exn_str (e : exn) : str :=
  match e with
  | JSONDecodeError => lit "JSONDecodeError"
  | ValidationError => lit "ValidationError"
  | ZeroDivisionError => lit "division by zero"
  | AttributeError => lit "AttributeError"
  | ExternalError m => m
  end.

(** The world counts the calls served so far. *)
Definition W := nat.

(** Call [n] gets the [n]-th outcome of the script, then time-outs. *)
Definition scripted (script : list (result str))
  : str -> option str -> W -> result str * W :=
  fun _ _ n => (nth n script (Raise (ExternalError (lit "timeout"))), S n).

(** Every call is answered with a sentence about the question. *)
Definition echo : str -> option str -> W -> result str * W :=
  fun q _ n => (Ok (lit "The answer is: " ++ q), S n).

Definition callback := str -> Z -> Z -> bool -> W -> result unit * W.

Definition failing_callback : option callback :=
  Some (fun _ _ _ _ n => (Raise (ExternalError (lit "callback")), n)).

(** Every call is answered with text that holds no answer. *)
Definition shrug : str -> option str -> W -> result str * W :=
  fun _ _ n => (Ok (lit "no idea"), S n).

Definition config : RAGRetryQuery :=
  {| max_retries := 3; retry_delay := 1; quality_threshold := 7 # 10 |}.

Definition batch (limit : Z) : BatchRAGQuery :=
  {| query_processor := config; concurrent_limit := limit |}.

Definition item (n : string) : question_data :=
  {| q_id := lit "q" ++ lit n; q_question := lit "Question " ++ lit n |}.

Definition three : list question_data := [item "1"; item "2"; item "3"].

Definition five : list question_data :=
  [item "1"; item "2"; item "3"; item "4"; item "5"].

(** The request of the synchronous testers, answered like [shrug]. *)
Definition lightrag : str -> str -> str -> W -> str * W :=
  fun _ _ _ n => (lit "no idea", S n).

(** The request answered with a sentence about the unit asked for. *)
Definition lightrag_unit : str -> str -> str -> W -> str * W :=
  fun _ _ unit n => (lit "The answer is given in " ++ unit, S n).

Definition rows : list row :=
  [{| row_id := lit "q1"; row_question := lit "Question 1";
      row_answer_unit := lit "kWh" |};
   {| row_id := lit "q2"; row_question := lit "Question 2";
      row_answer_unit := lit "tCO2e" |}].

(** A configuration whose range of attempts is empty. *)
Definition no_attempts : RAGRetryQuery :=
  {| max_retries := -1; retry_delay := 1; quality_threshold := 7 # 10 |}.

End Demo.

Section Pipeline.

(** *** What the repository takes from its environment *)

(** [pattern.search(text)]: group 1 of the leftmost match, if any. *)
Variable re_search : pattern -> str -> option str.
(** [s.lower()] *)
Variable str_lower : str -> str.
(** [str(v)] for a value that is neither a string nor [None]. *)
Variable py_str : pyval -> str.
(** [bool(x)] for a number given by its literal. *)
Variable num_truthy : str -> bool.
(** pydantic's conversion of a number or boolean offered for a [str] field:
    the text it becomes, or [None] where the library refuses it. *)
Variable pyd_coerce_scalar : pyval -> option str.
(** [str(e)] *)
Variable exn_str : exn -> str.
(** The upstream service: [await rag.aquery(question, ...)] in a state of the
    outside world. *)
Variable W : Type.
Variable aquery : str -> option str -> W -> result str * W.
(** [await progress_callback(question_id, done, total, ok)], when given. *)
Variable progress_callback :
  option (str -> Z -> Z -> bool -> W -> result unit * W).

(** *** [RAGAnswer]: validators and construction *)

Definition truthy (v : pyval) : bool :=
  match v with
  | PNone => false
  | PBool b => b
  | PNum lx => num_truthy lx
  | PStr s => nonempty s
  | PList l => nonempty l
  | PDict kvs => nonempty kvs
  end.

Definition quote_chars : str := [34; 39].

Definition parse_ref_id (v : pyval) : pyval :=
  match v with
  | PStr s =>
      let v := strip s in
      if PyStr.eqb v is_blank || negb (nonempty v) then PList []
      else
        match (if startswith [91] v && endswith [93] v
               then Json.loads v else None) with
        | Some decoded => decoded
        | None =>
            if mem 44 v
            then PList (map (fun item => PStr (strip_chars quote_chars (strip item)))
                            (split 44 v))
            else PList [PStr (strip_chars quote_chars (strip v))]
        end
  | _ => if truthy v then v else PList []
  end.

(** The body shared by the four text validators. *)
Definition parse_text (v : pyval) : pyval :=
  match v with
  | PStr s => PStr (strip s)
  | PNone => PStr is_blank
  | _ => PStr (py_str v)
  end.

Definition parse_answer_value := parse_text.
Definition parse_answer_unit := parse_text.
Definition parse_supporting_materials := parse_text.
Definition parse_explanation := parse_text.

(** Validation of a field annotated [str]. *)
Definition validate_str (v : pyval) : result str :=
  match v with
  | PStr s => Ok s
  | PBool _ | PNum _ =>
      match pyd_coerce_scalar v with
      | Some s => Ok s
      | None => Raise ValidationError
      end
  | PNone | PList _ | PDict _ => Raise ValidationError
  end.

Fixpoint validate_items (l : list pyval) : result (list str) :=
  match l with
  | [] => Ok []
  | v :: r => s ← validate_str v; ss ← validate_items r; Ok (s :: ss)
  end.

(** Validation of a field annotated [List[str]]. *)
Definition validate_list_str (v : pyval) : result (list str) :=
  match v with
  | PList l => validate_items l
  | _ => Raise ValidationError
  end.

(** The [ref_id] field of a record built from [v]: the validator, then the
    check against [List[str]]. *)
Definition ref_id_field (v : pyval) : result (list str) :=
  validate_list_str (parse_ref_id v).

(** [RAGAnswer(id=..., question=..., ...)] *)
Definition new_RAGAnswer
  (id question answer answer_value answer_unit ref_id
   supporting_materials explanation : pyval) : result RAGAnswer :=
  i ← validate_str id;
  q ← validate_str question;
  a ← validate_str answer;
  av ← validate_str (parse_answer_value answer_value);
  au ← validate_str (parse_answer_unit answer_unit);
  rf ← ref_id_field ref_id;
  sm ← validate_str (parse_supporting_materials supporting_materials);
  ex ← validate_str (parse_explanation explanation);
  Ok {| id := i; question := q; answer := a; answer_value := av;
        answer_unit := au; ref_id := rf; supporting_materials := sm;
        explanation := ex |}.

(** *** [AnswerParser] *)

Definition json_loads (s : str) : result pyval :=
  match Json.loads s with
  | Some v => Ok v
  | None => Raise JSONDecodeError
  end.

(** [json_data.get(key, default)] *)
Definition get (json_data : pyval) (key : str) (default : pyval)
  : result pyval :=
  match json_data with
  | PDict items => Ok (dict_get items key default)
  | _ => Raise AttributeError
  end.

Definition _try_parse_json (text question_id question_text : str)
  : result (option RAGAnswer) :=
  match brace_span text with
  | None => Ok None
  | Some span =>
      let body :=
        json_data ← json_loads span;
        a ← get json_data (lit "answer") (PStr is_blank);
        av ← get json_data (lit "answer_value") (PStr is_blank);
        au ← get json_data (lit "answer_unit") (PStr is_blank);
        rf ← get json_data (lit "ref_id") (PList []);
        sm ← get json_data (lit "supporting_materials") (PStr is_blank);
        ex ← get json_data (lit "explanation") (PStr is_blank);
        r ← new_RAGAnswer (PStr question_id) (PStr question_text)
                          a av au rf sm ex;
        Ok (Some r) in
      match body with
      | Raise JSONDecodeError => Ok None
      | other => other
      end
  end.

(** One field of the labelled stages: the primary pattern, then the relaxed
    one, then the sentinel. *)
Definition extract_field (text : str) (f : field) : str :=
  match re_search (Primary f) text with
  | Some g => collapse_ws (strip g)
  | None =>
      match re_search (Fallback f) text with
      | Some g => collapse_ws (strip g)
      | None => is_blank
      end
  end.

Definition first_line (text : str) : str :=
  match split 10 text with
  | l :: _ => l
  | [] => []
  end.

(** The answer after the refusal and first-line heuristics. *)
Definition heuristic_answer (cleaned_text : str) : str :=
  let parsed := extract_field cleaned_text in
  let a1 :=
    if forallb (fun f => PyStr.eqb (parsed f) is_blank) all_fields
       && contains (lit "unable to answer") (str_lower cleaned_text)
    then refusal_sentence else parsed FAnswer in
  if PyStr.eqb a1 is_blank then
    let potential_answer := strip (first_line cleaned_text) in
    if (10 <? List.length potential_answer)%nat
       && nonempty potential_answer
       && negb (startswith [123] potential_answer)
       && negb (startswith (lit "Answer:") potential_answer)
    then potential_answer else a1
  else a1.

(** [parse_answer] from the point where the embedded object gave nothing. *)
Definition labeled_stages (cleaned_text question_id question_text : str)
  : result (option RAGAnswer) :=
  let parsed := extract_field cleaned_text in
  let a := heuristic_answer cleaned_text in
  if negb (PyStr.eqb a is_blank) then
    match new_RAGAnswer (PStr question_id) (PStr question_text) (PStr a)
            (PStr (parsed FAnswerValue)) (PStr (parsed FAnswerUnit))
            (PStr (parsed FRefId)) (PStr (parsed FSupporting))
            (PStr (parsed FExplanation)) with
    | Ok answer_obj => Ok (Some answer_obj)
    | Raise _ => Ok None
    end
  else Ok None.

Definition parse_answer (response_text question_id question_text : str)
  : result (option RAGAnswer) :=
  if negb (nonempty response_text) || negb (nonempty (strip response_text))
  then Ok None
  else
    let cleaned_text := strip response_text in
    json_result ← _try_parse_json cleaned_text question_id question_text;
    match json_result with
    | Some r => Ok (Some r)
    | None => labeled_stages cleaned_text question_id question_text
    end.

(** The [ref_id] column of [format_answer_for_csv]. *)
Definition csv_ref_id (ref_id : list str) : str :=
  if nonempty ref_id then Json.dumps_list ref_id else lit "[]".

Definition format_answer_for_csv (a : RAGAnswer) : list str :=
  [id a; question a; answer a; answer_value a; answer_unit a;
   csv_ref_id (ref_id a); supporting_materials a; explanation a].

(** *** [RAGRetryQuery] *)

Definition _calculate_quality_score (a : RAGAnswer) : Q :=
  let score := 0%Q in
  let score :=
    if nonempty (answer a) && negb (PyStr.eqb (answer a) is_blank)
    then (score + (3 # 10))%Q else score in
  let score := if nonempty (ref_id a) then (score + (2 # 10))%Q else score in
  let score :=
    if nonempty (answer_value a) && negb (PyStr.eqb (answer_value a) is_blank)
    then (score + (2 # 10))%Q else score in
  let score :=
    if nonempty (supporting_materials a)
       && negb (PyStr.eqb (supporting_materials a) is_blank)
    then (score + (15 # 100))%Q else score in
  let score :=
    if nonempty (explanation a) && negb (PyStr.eqb (explanation a) is_blank)
    then (score + (15 # 100))%Q else score in
  if Qle_bool score 1 then score else 1%Q.

Definition err_truthy (e : err) : bool :=
  match e with
  | ErrExn _ => true
  | ErrText s => nonempty s
  end.

Definition err_str (e : err) : str :=
  match e with
  | ErrExn x => exn_str x
  | ErrText s => s
  end.

Definition failure_info (last_error : option err) : str :=
  match last_error with
  | Some e =>
      if err_truthy e then failure_marker ++ lit ": " ++ err_str e
      else parse_failure
  | None => parse_failure
  end.

Definition failure_explanation (last_response : option str) : str :=
  match last_response with
  | Some r =>
      if nonempty r && (200 <? List.length r)%nat
      then last_response_label ++ take 200 r ++ ellipsis
      else if nonempty r then r else no_response
  | None => no_response
  end.

Definition _create_failure_record (question_id question : str)
  (last_response : option str) (last_error : option err) : result RAGAnswer :=
  new_RAGAnswer (PStr question_id) (PStr question) (PStr failure_marker)
    (PStr is_blank) (PStr is_blank) (PList [])
    (PStr (failure_info last_error))
    (PStr (failure_explanation last_response)).

Section Query.

Variable self : RAGRetryQuery.
Variables question question_id : str.
Variable prompt_template : option str.

(** The [param] argument of the call: only a non-empty template is passed. *)
Definition template_arg : option str :=
  match prompt_template with
  | Some t => if nonempty t then Some t else None
  | None => None
  end.

(** [range(self.max_retries + 1)] has this many elements. *)
Definition attempts : nat := Z.to_nat (max_retries self + 1).

(** The delay slept after a failed attempt, when one more attempt follows. *)
Definition backoff (attempt : nat) : option Q :=
  if (Z.of_nat attempt <? max_retries self)%Z
  then Some (retry_delay self * inject_Z (Z.of_nat attempt + 1))%Q
  else None.

(** The [except Exception as e] clause. *)
Definition on_exception (attempt : nat) (last_response : option str) (e : exn)
  : body_out :=
  BNext last_response (Some (ErrExn e)) (backoff attempt).

(** One iteration of the loop, from the outcome of the awaited call. *)
Definition loop_body (attempt : nat) (last_response : option str)
  (last_error : option err) (outcome : result str) : body_out :=
  match outcome with
  | Raise e => on_exception attempt last_response e
  | Ok response =>
      let last_response := Some response in
      match parse_answer response question_id question with
      | Raise e => on_exception attempt last_response e
      | Ok (Some parsed_answer) =>
          let quality_score := _calculate_quality_score parsed_answer in
          BReturn parsed_answer
      | Ok None =>
          match backoff attempt with
          | Some d => BNext last_response last_error (Some d)
          | None =>
              match _create_failure_record question_id question last_response
                      (Some (ErrText format_failure)) with
              | Ok r => BReturn r
              | Raise e => on_exception attempt last_response e
              end
          end
      end
  end.

Definition sleep_events (d : option Q) : list event :=
  match d with
  | Some d => [ESleep d]
  | None => []
  end.

(** The loop with [remaining] iterations left, then the code after it.  The
    result comes with the world after the calls and the events in order. *)
Fixpoint retry_loop (remaining attempt : nat) (last_response : option str)
  (last_error : option err) (w : W) : result RAGAnswer * W * list event :=
  match remaining with
  | O =>
      (_create_failure_record question_id question last_response last_error,
       w, [])
  | S remaining' =>
      let '(outcome, w1) := aquery question template_arg w in
      let asked := EAsk question template_arg in
      match loop_body attempt last_response last_error outcome with
      | BReturn r => (Ok r, w1, [asked])
      | BNext last_response' last_error' d =>
          let '(r, w2, log) :=
            retry_loop remaining' (S attempt) last_response' last_error' w1 in
          (r, w2, asked :: sleep_events d ++ log)
      end
  end.

Definition query_with_retry (w : W) : result RAGAnswer * W * list event :=
  retry_loop attempts 0 None None w.

End Query.

(** *** [BatchRAGQuery] *)

(** Where the coroutine [process_single_question] of one item stands: at
    [async with self.semaphore], at one of its awaits, or finished. *)
Inductive tstate :=
| TWaiting
| TQuery (attempt : nat) (last_response : option str) (last_error : option err)
| TSleep (delay : Q) (next_attempt : nat) (last_response : option str)
         (last_error : option err)
| TCallbackOk (r : RAGAnswer)
| TCallbackFail (e : exn)
| TDone (r : result RAGAnswer).

(** The event loop during [asyncio.gather]: the value of the semaphore, the
    tasks in input order, the outside world. *)
Record bstate := {
  sem : Z;
  tasks : list tstate;
  world : W
}.

Definition is_done (t : tstate) : bool :=
  match t with TDone _ => true | _ => false end.

Definition in_flight (t : tstate) : bool :=
  match t with TWaiting | TDone _ => false | _ => true end.

Definition in_flight_count (s : bstate) : nat :=
  List.length (List.filter in_flight (tasks s)).

Section Batch.

Variable self : BatchRAGQuery.
Variable questions : list question_data.
Variable prompt_template : option str.

Definition processor := query_processor self.
Definition total_questions : Z := Z.of_nat (List.length questions).

Definition run_callback (qd : question_data) (ok : bool) (w : W)
  : result unit * W :=
  match progress_callback with
  | Some cb => cb (q_id qd) 0%Z total_questions ok w
  | None => (Ok tt, w)
  end.

(** The [except Exception as e] clause of [process_single_question]. *)
Definition on_item_exception (qd : question_data) (e : exn) : tstate :=
  match progress_callback with
  | Some _ => TCallbackFail e
  | None =>
      TDone (_create_failure_record (q_id qd) (q_question qd) None
               (Some (ErrExn e)))
  end.

(** [query_with_retry] has returned or raised. *)
Definition after_query (qd : question_data) (r : result RAGAnswer) : tstate :=
  match r with
  | Ok a =>
      match progress_callback with
      | Some _ => TCallbackOk a
      | None => TDone (Ok a)
      end
  | Raise e => on_item_exception qd e
  end.

(** The head of the loop of [query_with_retry] at [attempt]. *)
Definition resume (qd : question_data) (attempt : nat)
  (last_response : option str) (last_error : option err) : tstate :=
  if (attempt <? attempts processor)%nat
  then TQuery attempt last_response last_error
  else after_query qd
         (_create_failure_record (q_id qd) (q_question qd) last_response
            last_error).

(** A task in flight runs to its next await, or to its end. *)
Definition advance (qd : question_data) (t : tstate) (w : W)
  : option (tstate * W) :=
  match t with
  | TWaiting | TDone _ => None
  | TQuery attempt last_response last_error =>
      let '(outcome, w') :=
        aquery (q_question qd) (template_arg prompt_template) w in
      Some
        (match loop_body processor (q_question qd) (q_id qd) attempt
                 last_response last_error outcome with
         | BReturn r => after_query qd (Ok r)
         | BNext last_response' last_error' (Some d) =>
             TSleep d (S attempt) last_response' last_error'
         | BNext last_response' last_error' None =>
             resume qd (S attempt) last_response' last_error'
         end, w')
  | TSleep _ next_attempt last_response last_error =>
      Some (resume qd next_attempt last_response last_error, w)
  | TCallbackOk r =>
      let '(outcome, w') := run_callback qd true w in
      Some (match outcome with
            | Ok _ => TDone (Ok r)
            | Raise e => on_item_exception qd e
            end, w')
  | TCallbackFail e =>
      let '(outcome, w') := run_callback qd false w in
      Some (match outcome with
            | Ok _ =>
                TDone (_create_failure_record (q_id qd) (q_question qd) None
                         (Some (ErrExn e)))
            | Raise e' => TDone (Raise e')
            end, w')
  end.

(** Task [i] takes its next step; leaving [async with] gives the slot back. *)
Definition put (i : nat) (t : tstate) (sem' : Z) (w : W) (s : bstate)
  : bstate :=
  {| sem := if is_done t then (sem' + 1)%Z else sem';
     tasks := <[i := t]> (tasks s);
     world := w |}.

Definition step_at (i : nat) (s : bstate) : option bstate :=
  match questions !! i, tasks s !! i with
  | Some qd, Some TWaiting =>
      if (0 <? sem s)%Z
      then Some (put i (resume qd 0 None None) (sem s - 1)%Z (world s) s)
      else None
  | Some qd, Some t =>
      match advance qd t (world s) with
      | Some (t', w') => Some (put i t' (sem s) w' s)
      | None => None
      end
  | _, _ => None
  end.

Inductive step : bstate -> bstate -> Prop :=
| step_task i s s' : step_at i s = Some s' -> step s s'.

Definition initial (w : W) : bstate :=
  {| sem := concurrent_limit self;
     tasks := map (fun _ => TWaiting) questions;
     world := w |}.

(** The event loop runs the tasks in any order. *)
Inductive run : bstate -> bstate -> Prop :=
| run_refl s : run s s
| run_step s s' s'' : run s s' -> step s' s'' -> run s s''.

Definition reachable (w : W) (s : bstate) : Prop := run (initial w) s.

Definition all_done (s : bstate) : bool := forallb is_done (tasks s).

(** The loop over [enumerate(results)] after [gather]. *)
Definition processed (qd : question_data) (t : tstate)
  : option (result RAGAnswer) :=
  match t with
  | TDone (Ok r) => Some (Ok r)
  | TDone (Raise e) =>
      Some (_create_failure_record (q_id qd) (q_question qd) None
              (Some (ErrExn e)))
  | _ => None
  end.

(** Slot [r] of the output, for the item [qd] whose task ended as [t]. *)
Definition slot_result (qd : question_data) (t : tstate) (r : RAGAnswer)
  : Prop :=
  match t with
  | TDone (Ok a) => r = a
  | TDone (Raise e) =>
      _create_failure_record (q_id qd) (q_question qd) None (Some (ErrExn e))
      = Ok r
  | _ => False
  end.

Fixpoint processed_results (qs : list question_data) (ts : list tstate)
  : option (result (list RAGAnswer)) :=
  match qs, ts with
  | [], [] => Some (Ok [])
  | qd :: qs', t :: ts' =>
      match processed qd t, processed_results qs' ts' with
      | Some r, Some rs => Some (x ← r; xs ← rs; Ok (x :: xs))
      | _, _ => None
      end
  | _, _ => None
  end.

(** [process_batch] returns [rs] from world [w]: some interleaving of the
    tasks leads to a state where all are finished. *)
Definition process_batch (w : W) (r : result (list RAGAnswer)) : Prop :=
  exists s, reachable w s /\ all_done s = true
            /\ processed_results questions (tasks s) = Some r.

(** The run that follows a given schedule of task indices. *)
Fixpoint run_schedule (schedule : list nat) (s : bstate) : bstate :=
  match schedule with
  | [] => s
  | i :: rest =>
      match step_at i s with
      | Some s' => run_schedule rest s'
      | None => run_schedule rest s
      end
  end.

(** How many more steps a task can take, at most. *)
Definition task_measure (t : tstate) : nat :=
  match t with
  | TWaiting => 2 * attempts processor + 4
  | TQuery attempt _ _ => 2 * (attempts processor - attempt) + 3
  | TSleep _ next_attempt _ _ => 2 * (attempts processor - next_attempt) + 4
  | TCallbackOk _ => 2
  | TCallbackFail _ => 1
  | TDone _ => 0
  end.

Definition measure (s : bstate) : nat :=
  list_sum (map task_measure (tasks s)).

(** *** Statistics *)

Definition is_success (r : RAGAnswer) : bool :=
  negb (PyStr.eqb (answer r) failure_marker).

Definition get_statistics (results : list RAGAnswer) : result statistics :=
  let total := Z.of_nat (List.length results) in
  let successful := Z.of_nat (List.length (List.filter is_success results)) in
  let failed := (total - successful)%Z in
  let quality_scores :=
    map _calculate_quality_score (List.filter is_success results) in
  avg_quality ←
    (if nonempty quality_scores
     then py_div (fold_left Qplus quality_scores 0%Q)
                 (inject_Z (Z.of_nat (List.length quality_scores)))
     else Ok 0%Q);
  rate ←
    (if (0 <? total)%Z then py_div (inject_Z successful) (inject_Z total)
     else Ok 0%Q);
  Ok {| total := total; successful := successful; failed := failed;
        success_rate := rate; average_quality_score := avg_quality;
        stat_quality_threshold := quality_threshold processor |}.

End Batch.

(** *** The other functions of [AnswerParser] *)

Definition _validate_answer_quality (a : RAGAnswer) : bool :=
  if negb (nonempty (answer a)) || PyStr.eqb (answer a) is_blank then false
  else if contains (lit "unable to answer") (str_lower (answer a)) then false
  else true.

(** [self.patterns.get(name)] *)
Definition pattern_named (name : str) : option pattern :=
  match List.filter (fun f => PyStr.eqb (field_key f) name) all_fields with
  | f :: _ => Some (Primary f)
  | [] => None
  end.

Definition extract_field_value (text field_name : str) : str :=
  match pattern_named (str_lower field_name) with
  | None => []
  | Some p =>
      match re_search p text with
      | Some g => strip g
      | None => []
      end
  end.

(** *** The synchronous testers

    [EnhancedRAGTester.test_single_question_sync] and
    [TestSetFiller.fill_single_question] have the same text, as have their
    [_create_failure_record] and the one above. *)

(** [query_lightrag(question_id, question, answer_unit, api_url)]: the
    request to the service.  It catches what the request raises and returns
    text. *)
Variable query_lightrag : str -> str -> str -> W -> str * W.

Section Sync.

Variables question_id question_text answer_unit : str.
Variable max_retries : Z.
Variable request_delay : Q.

Definition sync_sleep (attempt : nat) : list event :=
  if (Z.of_nat attempt <? max_retries)%Z
  then [ESleep (request_delay * inject_Z (Z.of_nat attempt + 1))%Q]
  else [].

Fixpoint sync_loop (remaining attempt : nat) (last_response : option str)
  (last_error : option err) (w : W) : result RAGAnswer * W * list event :=
  match remaining with
  | O =>
      (_create_failure_record question_id question_text last_response
         last_error, w, [])
  | S remaining' =>
      let '(response_text, w1) :=
        query_lightrag question_id question_text answer_unit w in
      let asked := EAsk question_text None in
      let last_response := Some response_text in
      let next last_error :=
        let '(r, w2, log) :=
          sync_loop remaining' (S attempt) last_response last_error w1 in
        (r, w2, asked :: sync_sleep attempt ++ log) in
      match parse_answer response_text question_id question_text with
      | Ok (Some parsed_answer) => (Ok parsed_answer, w1, [asked])
      | Ok None =>
          if (Z.of_nat attempt <? max_retries)%Z then next last_error
          else
            match _create_failure_record question_id question_text
                    last_response (Some (ErrText format_failure)) with
            | Ok r => (Ok r, w1, [asked])
            | Raise e => next (Some (ErrExn e))
            end
      | Raise e => next (Some (ErrExn e))
      end
  end.

Definition test_single_question_sync (w : W)
  : result RAGAnswer * W * list event :=
  sync_loop (Z.to_nat (max_retries + 1)) 0 None None w.

End Sync.

(** The loop of [test_batch] (and of [fill_test_set]) from row [i] on. *)
Fixpoint test_batch_from (request_delay : Q) (total : Z) (i : nat)
  (rows : list row) (w : W)
  : result (list RAGAnswer) * W * list batch_event :=
  match rows with
  | [] => (Ok [], w, [])
  | r :: rest =>
      let '(result, w1, log) :=
        test_single_question_sync (row_id r) (row_question r)
          (row_answer_unit r) 3 request_delay w in
      let asked := BQuestion (row_id r) log in
      match result with
      | Raise e => (Raise e, w1, [asked])
      | Ok a =>
          let pause :=
            if (Z.of_nat i <? total - 1)%Z then [BPause request_delay]
            else [] in
          let '(results, w2, logs) :=
            test_batch_from request_delay total (S i) rest w1 in
          (match results with
           | Ok rs => Ok (a :: rs)
           | Raise e => Raise e
           end, w2, asked :: pause ++ logs)
      end
  end.

Definition test_batch (test_df : list row) (request_delay : Q) (w : W)
  : result (list RAGAnswer) * W * list batch_event :=
  test_batch_from request_delay (Z.of_nat (List.length test_df)) 0 test_df w.

(** *** What the claims' functions do, in other words *)

(** The record with an answer and nothing else. *)
Definition answer_only (qid q a : str) : RAGAnswer :=
  {| id := qid; question := q; answer := a; answer_value := is_blank;
     answer_unit := is_blank; ref_id := []; supporting_materials := is_blank;
     explanation := is_blank |}.


(** [n] calls with the sleeps between them: after call [k], counted from 1,
    the base delay [k] times. *)
Fixpoint backoff_log (self : RAGRetryQuery) (q : str) (t : option str)
  (attempt n : nat) : list event :=
  match n with
  | O => []
  | S O => [EAsk q t]
  | S n' =>
      EAsk q t
      :: ESleep (retry_delay self * inject_Z (Z.of_nat attempt + 1))%Q
      :: backoff_log self q t (S attempt) n'
  end.

(** Where a task of a batch without callback ends, run on its own from
    state [t] in world [w]. *)
Definition run_alone (self : BatchRAGQuery) (qd : question_data)
  (tmpl : option str) (t : tstate) (w : W) : result RAGAnswer * W :=
  let go attempt last_response last_error :=
    fst (retry_loop (query_processor self) (q_question qd) (q_id qd) tmpl
           (attempts (query_processor self) - attempt) attempt last_response
           last_error w) in
  match t with
  | TWaiting => go O None None
  | TQuery attempt last_response last_error =>
      go attempt last_response last_error
  | TSleep _ attempt last_response last_error =>
      go attempt last_response last_error
  | TDone r => (r, w)
  | TCallbackOk r => (Ok r, w)
  | TCallbackFail e =>
      (_create_failure_record (q_id qd) (q_question qd) None
         (Some (ErrExn e)), w)
  end.

(** The questions of a run of [test_batch] with a pause between two of them
    and nowhere else. *)
Fixpoint paused (delay : Q) (asked : list batch_event) : list batch_event :=
  match asked with
  | [] => []
  | [a] => [a]
  | a :: rest => a :: BPause delay :: paused delay rest
  end.

(** A service none of whose answers yields a record. *)
Definition never_extracts (q qid : str) (tmpl : option str) : Prop :=
  forall w, exists text w',
    aquery q (template_arg tmpl) w = (Ok text, w')
    /\ forall r, parse_answer text qid q <> Ok (Some r).

(** *** What holds of every state of a batch *)

(** A task that has passed the semaphore is in flight until it is done. *)
Definition started (t : tstate) : Prop := in_flight t = negb (is_done t).

Definition has_ids (qd : question_data) (r : RAGAnswer) : Prop :=
  id r = q_id qd /\ question r = q_question qd.

(** A task is within its attempts, and a record it holds is its item's. *)
Definition task_ok (self : BatchRAGQuery) (qd : question_data) (t : tstate)
  : Prop :=
  match t with
  | TQuery attempt _ _ => (attempt < attempts (query_processor self))%nat
  | TSleep _ next_attempt _ _ =>
      (next_attempt < attempts (query_processor self))%nat
  | TCallbackOk r => has_ids qd r
  | TDone (Ok r) => has_ids qd r
  | _ => True
  end.

Record invariant (self : BatchRAGQuery) (questions : list question_data)
  (s : bstate) : Prop := {
  inv_tasks : Forall2 (task_ok self) questions (tasks s);
  inv_slots : (sem s + Z.of_nat (in_flight_count s) = concurrent_limit self)%Z;
  inv_sem : (0 <= concurrent_limit self -> 0 <= sem s)%Z
}.

(** ** Properties *)

(** *** Records built from text *)

Lemma strip_is_blank : strip is_blank = is_blank.
Proof. reflexivity. Qed.

Lemma new_RAGAnswer_text i q a av au sm ex :
  new_RAGAnswer (PStr i) (PStr q) (PStr a) (PStr av) (PStr au) (PList [])
                (PStr sm) (PStr ex)
  = Ok {| id := i; question := q; answer := a; answer_value := strip av;
          answer_unit := strip au; ref_id := [];
          supporting_materials := strip sm; explanation := strip ex |}.
Proof. reflexivity. Qed.

Lemma failure_record_ok qid q lr le :
  _create_failure_record qid q lr le
  = Ok {| id := qid; question := q; answer := failure_marker;
          answer_value := is_blank; answer_unit := is_blank; ref_id := [];
          supporting_materials := strip (failure_info le);
          explanation := strip (failure_explanation lr) |}.
Proof.
  unfold _create_failure_record. rewrite new_RAGAnswer_text.
  now rewrite strip_is_blank.
Qed.

Lemma bind_Ok_inv {A B} (m : result A) (k : A -> result B) b :
  m ≫= k = Ok b -> exists a, m = Ok a /\ k a = Ok b.
Proof. destruct m as [a|e]; [eauto | discriminate]. Qed.

Ltac bind_inv H :=
  let a := fresh "a" in
  let Ha := fresh "Ha" in
  apply bind_Ok_inv in H as (a & Ha & H).

(** Every record built by [new_RAGAnswer] carries the identifiers it was
    given. *)
Lemma new_RAGAnswer_ids i q a av au rf sm ex r :
  new_RAGAnswer (PStr i) (PStr q) a av au rf sm ex = Ok r ->
  id r = i /\ question r = q.
Proof.
  unfold new_RAGAnswer. intros H.
  do 8 bind_inv H. injection H as <-.
  cbn in *. split; congruence.
Qed.

Lemma _try_parse_json_ids text qid q r :
  _try_parse_json text qid q = Ok (Some r) -> id r = qid /\ question r = q.
Proof.
  unfold _try_parse_json. destruct (brace_span text) as [span|]; [|discriminate].
  match goal with |- match ?b with _ => _ end = _ -> _ =>
    destruct b as [x|e] eqn:E end.
  - intros [= ->]. do 8 bind_inv E. injection E as <-.
    eapply new_RAGAnswer_ids; eauto.
  - destruct e; discriminate.
Qed.

Lemma parse_answer_ids text qid q r :
  parse_answer text qid q = Ok (Some r) -> id r = qid /\ question r = q.
Proof.
  unfold parse_answer.
  destruct (negb (nonempty text) || negb (nonempty (strip text)));
    [discriminate|].
  intros H. bind_inv H. destruct a as [r'|].
  - injection H as <-. eapply _try_parse_json_ids; eauto.
  - unfold labeled_stages in H.
    destruct (negb (PyStr.eqb _ is_blank)); [|discriminate].
    destruct (new_RAGAnswer _ _ _ _ _ _ _ _) as [r'|e] eqn:E'; [|discriminate].
    injection H as <-. eapply new_RAGAnswer_ids, E'.
Qed.

(** *** Stripping *)

Lemma drop_while_head p c (s : str) :
  p c = false -> drop_while p (c :: s) = c :: s.
Proof. intros H. cbn. now rewrite H. Qed.

(** Text that neither starts nor ends with a stripped character is left as
    it is. *)
Lemma strip_with_fixed p a (m : str) b :
  p a = false -> p b = false ->
  strip_with p (a :: m ++ [b]) = a :: m ++ [b].
Proof.
  intros Ha Hb. unfold strip_with.
  rewrite (drop_while_head p a) by exact Ha.
  change (a :: m ++ [b]) with ([a] ++ (m ++ [b])) at 1.
  rewrite !rev_app_distr. cbn [rev app].
  rewrite (drop_while_head p b) by exact Hb.
  change (b :: rev m ++ [a]) with ([b] ++ rev m ++ [a]).
  rewrite !rev_app_distr, rev_involutive. reflexivity.
Qed.

(** *** The retry loop *)

Lemma ask_count_cons q t d log :
  ask_count (EAsk q t :: sleep_events d ++ log) = S (ask_count log).
Proof. unfold ask_count. destruct d; reflexivity. Qed.

(** The loop ends with a record whatever the service and the extractor do,
    after at most [n] calls. *)
Lemma retry_loop_returns self q qid tmpl n a lr le w :
  exists rec w' log,
    retry_loop self q qid tmpl n a lr le w = (Ok rec, w', log)
    /\ (ask_count log <= n)%nat.
Proof.
  revert a lr le w. induction n as [|n IH]; intros a lr le w; cbn [retry_loop].
  - rewrite failure_record_ok. eexists _, _, _. split; [reflexivity|]. cbn. lia.
  - destruct (aquery q (template_arg tmpl) w) as [o w1].
    destruct (loop_body self q qid a lr le o) as [r|lr' le' d].
    + eexists _, _, _. split; [reflexivity|]. cbn. lia.
    + destruct (IH (S a) lr' le' w1) as (rec & w' & log & E & Hc).
      rewrite E. eexists _, _, _. split; [reflexivity|].
      rewrite ask_count_cons. lia.
Qed.

Lemma backoff_last self a :
  backoff self a = None -> (max_retries self <= Z.of_nat a)%Z.
Proof.
  unfold backoff. destruct (Z.ltb_spec (Z.of_nat a) (max_retries self));
    [discriminate | auto].
Qed.

Lemma backoff_more self a d :
  backoff self a = Some d -> (Z.of_nat a < max_retries self)%Z.
Proof.
  unfold backoff. destruct (Z.ltb_spec (Z.of_nat a) (max_retries self));
    [auto | discriminate].
Qed.

(** Against such a service every pass of the loop asks once, and the loop
    ends with a failure record. *)
Lemma exhausted_loop self q qid tmpl :
  never_extracts q qid tmpl ->
  forall n a lr le w,
    Z.of_nat (a + n) = (max_retries self + 1)%Z ->
    exists rec w' log lr' le',
      retry_loop self q qid tmpl n a lr le w = (Ok rec, w', log)
      /\ ask_count log = n
      /\ _create_failure_record qid q lr' le' = Ok rec.
Proof.
  intros Hfail. induction n as [|n IH]; intros a lr le w Hn; cbn [retry_loop].
  - eexists _, w, [], lr, le. rewrite failure_record_ok. auto.
  - destruct (Hfail w) as (text & w1 & -> & Hno).
    unfold loop_body.
    destruct (parse_answer text qid q) as [[r|]|e] eqn:Hp.
    + now destruct (Hno r).
    + destruct (backoff self a) as [d|] eqn:Hb.
      * destruct (IH (S a) (Some text) le w1) as (rec & w' & log & lr' & le' & E & Hc & Hr);
          [lia|].
        rewrite E. eexists rec, w', _, lr', le'. rewrite ask_count_cons. auto.
      * apply backoff_last in Hb. assert (n = O) as -> by lia.
        pose proof (failure_record_ok qid q (Some text) (Some (ErrText format_failure))) as Hr.
        rewrite Hr. eexists _, w1, _, _, _. split; [reflexivity|]. split; [reflexivity|].
        exact Hr.
    + unfold on_exception.
      destruct (IH (S a) (Some text) (Some (ErrExn e)) w1)
        as (rec & w' & log & lr' & le' & E & Hc & Hr); [lia|].
      rewrite E. eexists rec, w', _, lr', le'. rewrite ask_count_cons. auto.
Qed.

(** C1.  With [max_retries = 3], a service whose every answer fails to
    extract is asked exactly four times, and the query returns the failure
    record: the failure marker as [answer], the sentinel as [answer_value]
    and [answer_unit], no reference. *)
Theorem retry_bound self q qid tmpl w :
  max_retries self = 3%Z ->
  never_extracts q qid tmpl ->
  exists rec w' log,
    query_with_retry self q qid tmpl w = (Ok rec, w', log)
    /\ ask_count log = 4%nat
    /\ answer rec = failure_marker
    /\ answer_value rec = is_blank
    /\ answer_unit rec = is_blank
    /\ ref_id rec = [].
Proof.
  intros Hmax Hfail. unfold query_with_retry, attempts.
  destruct (exhausted_loop self q qid tmpl Hfail
              (Z.to_nat (max_retries self + 1)) 0 None None w)
    as (rec & w' & log & lr' & le' & E & Hc & Hr).
  { rewrite Hmax. reflexivity. }
  exists rec, w', log. rewrite Hmax in *.
  rewrite failure_record_ok in Hr. injection Hr as <-.
  repeat split; auto.
Qed.

(** C2.  [query_with_retry] returns a record for every behaviour of the
    service and of the extractor, never an exception.  An exception raised
    by the call or by the extractor ends the attempt like a format failure
    does: the same back-off, then the next attempt.  When the last pass of
    the loop ends in an exception, the record returned is the failure record
    whose reason is the marker followed by that exception's message. *)
Theorem query_never_raises self q qid tmpl :
  (forall w, exists rec w' log,
      query_with_retry self q qid tmpl w = (Ok rec, w', log))
  /\ (forall attempt lr le e,
        loop_body self q qid attempt lr le (Raise e)
        = BNext lr (Some (ErrExn e)) (backoff self attempt))
  /\ (forall attempt lr le response e,
        parse_answer response qid q = Raise e ->
        loop_body self q qid attempt lr le (Ok response)
        = BNext (Some response) (Some (ErrExn e)) (backoff self attempt))
  /\ (forall attempt lr le response d,
        parse_answer response qid q = Ok None ->
        backoff self attempt = Some d ->
        loop_body self q qid attempt lr le (Ok response)
        = BNext (Some response) le (backoff self attempt))
  /\ (forall attempt lr le w o w1 lr' e d,
        aquery q (template_arg tmpl) w = (o, w1) ->
        loop_body self q qid attempt lr le o = BNext lr' (Some (ErrExn e)) d ->
        exists rec,
          retry_loop self q qid tmpl 1 attempt lr le w
          = (Ok rec, w1, EAsk q (template_arg tmpl) :: sleep_events d)
          /\ answer rec = failure_marker
          /\ supporting_materials rec
             = strip (failure_marker ++ lit ": " ++ exn_str e)).
Proof.
  split; [|split; [|split; [|split]]].
  - intros w. unfold query_with_retry.
    destruct (retry_loop_returns self q qid tmpl (attempts self) 0 None None w)
      as (rec & w' & log & E & _). eauto.
  - reflexivity.
  - intros attempt lr le response e Hp. unfold loop_body. now rewrite Hp.
  - intros attempt lr le response d Hp Hb. unfold loop_body.
    now rewrite Hp, Hb.
  - intros attempt lr le w o w1 lr' e d Ha Hl. cbn [retry_loop].
    rewrite Ha, Hl, failure_record_ok, app_nil_r.
    eexists. split; [reflexivity|]. split; reflexivity.
Qed.

Lemma quality_score_range a :
  (0 <= _calculate_quality_score a)%Q /\ (_calculate_quality_score a <= 1)%Q.
Proof.
  unfold _calculate_quality_score.
  destruct (nonempty (answer a) && negb (PyStr.eqb (answer a) is_blank));
  destruct (nonempty (ref_id a));
  destruct (nonempty (answer_value a)
            && negb (PyStr.eqb (answer_value a) is_blank));
  destruct (nonempty (supporting_materials a)
            && negb (PyStr.eqb (supporting_materials a) is_blank));
  destruct (nonempty (explanation a)
            && negb (PyStr.eqb (explanation a) is_blank));
  vm_compute; split; discriminate.
Qed.

(** C4.  When the first answer of the service extracts into a record, the
    query asks once, does not sleep, and returns that record, whatever the
    record's quality score between 0 and 1 and whatever the quality
    threshold of the processor. *)
Theorem no_retry_on_success self q qid tmpl w text w1 rec :
  (0 <= max_retries self)%Z ->
  aquery q (template_arg tmpl) w = (Ok text, w1) ->
  parse_answer text qid q = Ok (Some rec) ->
  query_with_retry self q qid tmpl w
  = (Ok rec, w1, [EAsk q (template_arg tmpl)])
  /\ ask_count [EAsk q (template_arg tmpl)] = 1%nat
  /\ (0 <= _calculate_quality_score rec)%Q
  /\ (_calculate_quality_score rec <= 1)%Q.
Proof.
  intros Hmax Ha Hp. unfold query_with_retry, attempts.
  destruct (Z.to_nat (max_retries self + 1)) as [|n] eqn:En; [lia|].
  cbn [retry_loop]. rewrite Ha. unfold loop_body. rewrite Hp.
  split; [reflexivity|]. split; [reflexivity|]. apply quality_score_range.
Qed.

(** C8, as amended.  The failure record's [explanation] is the placeholder
    when there is no response or an empty one; the label, the first 200
    characters of the response and the ellipsis when the response is longer
    than 200 characters; otherwise the response with the white space around
    it removed. *)
Theorem failure_explanation_shape qid q lr le :
  exists rec,
    _create_failure_record qid q lr le = Ok rec
    /\ explanation rec =
       match lr with
       | None => no_response
       | Some r =>
           if nonempty r then
             if (200 <? List.length r)%nat
             then last_response_label ++ take 200 r ++ ellipsis
             else strip r
           else no_response
       end.
Proof.
  rewrite failure_record_ok. eexists. split; [reflexivity|]. cbn [explanation].
  unfold failure_explanation. destruct lr as [r|]; [|reflexivity].
  destruct (nonempty r); [|reflexivity]. cbn [andb].
  destruct (200 <? List.length r)%nat; [|reflexivity].
  generalize (take 200 r). intros t.
  assert (last_response_label ++ t ++ ellipsis
          = 0x6700 :: ([0x540e; 0x54cd; 0x5e94; 0x3a; 0x20] ++ t ++ [46; 46])
                      ++ [46]) as ->.
  { change ellipsis with ([46; 46] ++ [46]).
    unfold last_response_label. cbn [app]. now rewrite <- !app_assoc. }
  apply strip_with_fixed; reflexivity.
Qed.

(** *** Statistics *)

Lemma py_div_positive a (n : nat) :
  py_div a (inject_Z (Z.of_nat (S n))) = Ok (a / inject_Z (Z.of_nat (S n)))%Q.
Proof.
  unfold py_div.
  destruct (Qeq_bool (inject_Z (Z.of_nat (S n))) 0) eqn:E; [|reflexivity].
  apply Qeq_bool_iff in E. unfold Qeq in E. cbn in E. lia.
Qed.

(** C10.  [get_statistics] returns for every list of results.  For the empty
    list all of total, successful, failed, success rate and average quality
    are 0, and whenever no result counts as successful the average quality is
    0: neither division is attempted with a zero divisor. *)
Theorem get_statistics_total self :
  (forall results, exists st, get_statistics self results = Ok st)
  /\ get_statistics self []
     = Ok {| total := 0; successful := 0; failed := 0; success_rate := 0;
             average_quality_score := 0;
             stat_quality_threshold := quality_threshold (processor self) |}
  /\ (forall results st,
        List.filter is_success results = [] ->
        get_statistics self results = Ok st ->
        average_quality_score st = 0%Q /\ successful st = 0%Z
        /\ failed st = total st).
Proof.
  split; [|split].
  - intros results. unfold get_statistics.
    destruct (map _calculate_quality_score (List.filter is_success results))
      as [|s ss] eqn:Es; cbn [nonempty mbind result_bind].
    + destruct results as [|r rs]; cbn [List.length].
      * cbn. eauto.
      * replace (0 <? Z.of_nat (S (List.length rs)))%Z with true
          by (symmetry; apply Z.ltb_lt; lia).
        rewrite py_div_positive. cbn. eauto.
    + cbn [List.length]. rewrite py_div_positive. cbn [mbind result_bind].
      destruct results as [|r rs]; [discriminate|]. cbn [List.length].
      replace (0 <? Z.of_nat (S (List.length rs)))%Z with true
        by (symmetry; apply Z.ltb_lt; lia).
      rewrite py_div_positive. cbn. eauto.
  - reflexivity.
  - intros results st Hnone. unfold get_statistics. rewrite Hnone.
    cbn [map nonempty mbind result_bind List.length].
    destruct (0 <? Z.of_nat (List.length results))%Z.
    + destruct (py_div _ _); cbn; [|discriminate].
      intros [= <-]. cbn. repeat split; lia.
    + cbn. intros [= <-]. cbn. repeat split; lia.
Qed.

(** *** JSON text of a list of strings *)

Lemma lor_pow2_low a k x : x < 2 ^ k -> N.lor (a * 2 ^ k) x = a * 2 ^ k + x.
Proof.
  intros Hx.
  assert (N.land (a * 2 ^ k) x = 0) as Hd.
  { apply N.bits_inj. intros i. rewrite N.land_spec, N.bits_0.
    destruct (N.lt_ge_cases i k) as [Hi|Hi].
    - now rewrite N.mul_pow2_bits_low.
    - rewrite <- (N.mod_small x (2 ^ k)) by exact Hx.
      rewrite N.mod_pow2_bits_high by exact Hi. apply andb_false_r. }
  now rewrite <- N.lxor_lor, <- N.add_nocarry_lxor.
Qed.

Lemma unhex_hexdigit d : d < 16 -> Json.unhex (Json.hexdigit d) = Some d.
Proof.
  intros Hd. unfold Json.hexdigit, Json.unhex.
  destruct (N.ltb_spec d 10).
  - replace ((48 <=? 48 + d) && (48 + d <=? 57)) with true.
    + f_equal. lia.
    + symmetry. apply andb_true_intro. split; apply N.leb_le; lia.
  - replace ((48 <=? 87 + d) && (87 + d <=? 57)) with false.
    + replace ((97 <=? 87 + d) && (87 + d <=? 102)) with true.
      * f_equal. lia.
      * symmetry. apply andb_true_intro. split; apply N.leb_le; lia.
    + symmetry. apply andb_false_intro2. apply N.leb_gt. lia.
Qed.

Lemma hex_digits n :
  n / 4096 * 4096 + (n / 256) mod 16 * 256 + (n / 16) mod 16 * 16 + n mod 16
  = n.
Proof.
  pose proof (N.div_mod n 16 ltac:(lia)) as H0.
  pose proof (N.div_mod (n / 16) 16 ltac:(lia)) as H1.
  pose proof (N.div_mod (n / 16 / 16) 16 ltac:(lia)) as H2.
  rewrite !N.Div0.div_div in H1, H2.
  change (16 * 16) with 256 in *.
  replace (n / 4096) with (n / (256 * 16)) by reflexivity.
  rewrite <- N.Div0.div_div.
  pose proof (N.div_mod (n / 256) 16 ltac:(lia)) as H3.
  lia.
Qed.

Lemma unhex4_hex4 n :
  n < 65536 ->
  match Json.hex4 n with
  | [a; b; c; d] => Json.unhex4 a b c d = Some n
  | _ => False
  end.
Proof.
  intros Hn. unfold Json.hex4, Json.unhex4.
  rewrite !unhex_hexdigit.
  - f_equal. apply hex_digits.
  - apply N.mod_lt. lia.
  - apply N.mod_lt. lia.
  - apply N.mod_lt. lia.
  - apply N.Div0.div_lt_upper_bound. lia.
Qed.

Lemma scanstring_plain (c : N) r :
  c <> 34 -> 32 <= c -> c <> 92 ->
  Json.scanstring (c :: r) = Json.cons_char c (Json.scanstring r).
Proof.
  intros H1 H2 H3. cbn [Json.scanstring].
  apply N.eqb_neq in H1, H3. rewrite H1, H3.
  apply N.ltb_ge in H2. now rewrite H2.
Qed.

Lemma scanstring_backslash e d r :
  e <> 117 -> Json.backslash e = Some d ->
  Json.scanstring (92 :: e :: r) = Json.cons_char d (Json.scanstring r).
Proof.
  intros H1 H2. cbn [Json.scanstring].
  change (92 =? 34) with false. change (92 <? 32) with false.
  change (92 =? 92) with true. cbv iota.
  apply N.eqb_neq in H1. now rewrite H1, H2.
Qed.

Lemma scanstring_u h1 h2 h3 h4 uni r :
  Json.unhex4 h1 h2 h3 h4 = Some uni ->
  Json.is_high_surrogate uni = false ->
  Json.scanstring (92 :: 117 :: h1 :: h2 :: h3 :: h4 :: r)
  = Json.cons_char uni (Json.scanstring r).
Proof.
  intros H1 H2. cbn [Json.scanstring].
  change (92 =? 34) with false. change (92 <? 32) with false.
  change (92 =? 92) with true. change (117 =? 117) with true. cbv iota.
  rewrite H1, H2. cbn [andb].
  destruct r as [|? [|? [|? [|? [|? [|? ?]]]]]]; reflexivity.
Qed.

Lemma scanstring_pair h1 h2 h3 h4 l1 l2 l3 l4 hi lo r :
  Json.unhex4 h1 h2 h3 h4 = Some hi ->
  Json.is_high_surrogate hi = true ->
  Json.unhex4 l1 l2 l3 l4 = Some lo ->
  Json.is_low_surrogate lo = true ->
  Json.scanstring
    (92 :: 117 :: h1 :: h2 :: h3 :: h4 :: 92 :: 117 :: l1 :: l2 :: l3 :: l4 :: r)
  = Json.cons_char (Json.join_surrogates hi lo) (Json.scanstring r).
Proof.
  intros H1 H2 H3 H4. cbn [Json.scanstring].
  change (92 =? 34) with false. change (92 <? 32) with false.
  change (92 =? 92) with true. change (117 =? 117) with true. cbv iota.
  rewrite H1, H2. cbn [andb]. cbv iota. now rewrite H3, H4.
Qed.

(** The scanner undoes the escape of one scalar value. *)
Lemma scanstring_escape (c : N) r :
  is_scalar c = true ->
  Json.scanstring (Json.escape_char c ++ r)
  = Json.cons_char c (Json.scanstring r).
Proof.
  intros Hc. unfold Json.escape_char.
  destruct (N.eqb_spec c 34) as [->|N34]; [reflexivity|].
  destruct (N.eqb_spec c 92) as [->|N92]; [reflexivity|].
  destruct (N.eqb_spec c 10) as [->|N10]; [reflexivity|].
  destruct (N.eqb_spec c 13) as [->|N13]; [reflexivity|].
  destruct (N.eqb_spec c 9) as [->|N9]; [reflexivity|].
  destruct (N.eqb_spec c 8) as [->|N8]; [reflexivity|].
  destruct (N.eqb_spec c 12) as [->|N12]; [reflexivity|].
  destruct ((32 <=? c) && (c <=? 126)) eqn:Hp.
  - apply andb_prop in Hp as [Hlo _]. apply N.leb_le in Hlo.
    cbn [app]. now apply scanstring_plain.
  - unfold is_scalar in Hc.
    destruct (N.ltb_spec c 0x10000) as [Hs|Hs].
    + pose proof (unhex4_hex4 c Hs) as Hx. unfold Json.u_escape.
      unfold Json.hex4 in *. cbn [app].
      apply scanstring_u; [exact Hx|].
      unfold Json.is_high_surrogate.
      destruct (N.ltb_spec c 0xD800) as [Hd|Hd].
      * apply andb_false_intro1. apply N.leb_gt. exact Hd.
      * cbn [orb] in Hc. apply andb_prop in Hc as [He _].
        apply N.leb_le in He. apply andb_false_intro2. apply N.leb_gt. lia.
    + assert (c < 0x110000) as Hu.
      { destruct (N.ltb_spec c 0xD800); [lia|]. cbn [orb] in Hc.
        apply andb_prop in Hc as [_ Hu]. now apply N.ltb_lt in Hu. }
      set (n := c - 0x10000).
      assert (n < 2 ^ 20) as Hn by (change (2 ^ 20) with 1048576; lia).
      rewrite N.shiftr_div_pow2.
      change 0x3ff with (N.ones 10). rewrite !N.land_ones.
      assert (n / 2 ^ 10 < 2 ^ 10) as Hh.
      { apply N.Div0.div_lt_upper_bound. exact Hn. }
      rewrite (N.mod_small (n / 2 ^ 10)) by exact Hh.
      assert (n mod 2 ^ 10 < 2 ^ 10) as Hl by (apply N.mod_lt; discriminate).
      change 0xd800 with (54 * 2 ^ 10). change 0xdc00 with (55 * 2 ^ 10).
      rewrite !lor_pow2_low by assumption.
      pose proof (N.div_mod n (2 ^ 10) ltac:(discriminate)) as D.
      revert Hh Hl D. generalize (n / 2 ^ 10) (n mod 2 ^ 10).
      change (2 ^ 10) with 1024. intros a b Hh Hl D.
      set (hi := 54 * 1024 + a). set (lo := 55 * 1024 + b).
      assert (hi < 65536) as Hhi by (subst hi; lia).
      assert (lo < 65536) as Hlo by (subst lo; lia).
      pose proof (unhex4_hex4 hi Hhi) as Xh.
      pose proof (unhex4_hex4 lo Hlo) as Xl.
      unfold Json.u_escape, Json.hex4 in *. cbn [app].
      rewrite (scanstring_pair _ _ _ _ _ _ _ _ hi lo r Xh); [| |exact Xl|].
      * f_equal. unfold Json.join_surrogates.
        rewrite N.shiftl_mul_pow2.
        replace (hi - 0xd800) with a by (subst hi; lia).
        replace (lo - 0xdc00) with b by (subst lo; lia).
        rewrite lor_pow2_low by (change (2 ^ 10) with 1024; exact Hl).
        change (2 ^ 10) with 1024. subst n. clear - D Hs. lia.
      * unfold Json.is_high_surrogate. apply andb_true_intro.
        split; apply N.leb_le; subst hi; clear - Hh; lia.
      * unfold Json.is_low_surrogate. apply andb_true_intro.
        split; apply N.leb_le; subst lo; clear - Hl; lia.
Qed.

Lemma scanstring_flat_map s r :
  well_formed s = true ->
  Json.scanstring (flat_map Json.escape_char s ++ 34 :: r) = Some (s, r).
Proof.
  induction s as [|c s IH]; intros Hs; [reflexivity|].
  cbn [well_formed forallb] in Hs. apply andb_prop in Hs as [Hc Hs].
  cbn [flat_map]. rewrite <- app_assoc, scanstring_escape by exact Hc.
  unfold well_formed in IH. now rewrite IH.
Qed.

Lemma scanstring_encoded s r :
  well_formed s = true ->
  Json.scanstring (tl (Json.encode_basestring_ascii s) ++ r) = Some (s, r).
Proof.
  intros Hs. unfold Json.encode_basestring_ascii. cbn [tl].
  rewrite <- app_assoc. now apply scanstring_flat_map.
Qed.

Lemma encoded_head s :
  Json.encode_basestring_ascii s = 34 :: tl (Json.encode_basestring_ascii s).
Proof. reflexivity. Qed.

Lemma join_encoded_head s l :
  exists t, join [44; 32] (map Json.encode_basestring_ascii (s :: l)) = 34 :: t.
Proof. destruct l; cbn [map join]; rewrite encoded_head; cbn; eauto. Qed.

Lemma parse_value_string f r :
  Json.parse_value (S f) (34 :: r)
  = match Json.scanstring r with
    | Some (t, rest) => Some (PStr t, rest)
    | None => None
    end.
Proof. reflexivity. Qed.

Lemma parse_elems_last f v s r :
  Json.parse_value f s = Some (v, 93 :: r) ->
  Json.parse_elems (S f) s = Some ([v], r).
Proof.
  intros H.
  transitivity (match Json.parse_value f s with
                | Some (v0, 93 :: r0) => Some ([v0], r0)
                | _ => None
                end); [|now rewrite H].
  cbn [Json.parse_elems]. rewrite H. reflexivity.
Qed.

Lemma parse_elems_more f v vs s t r :
  Json.parse_value f s = Some (v, 44 :: 32 :: 34 :: t) ->
  Json.parse_elems f (34 :: t) = Some (vs, r) ->
  Json.parse_elems (S f) s = Some (v :: vs, r).
Proof.
  intros H1 H2.
  transitivity (match Json.parse_value f s with
                | Some (v0, 44 :: 32 :: 34 :: t0) =>
                    match Json.parse_elems f (34 :: t0) with
                    | Some (vs0, rest) => Some (v0 :: vs0, rest)
                    | None => None
                    end
                | _ => None
                end); [|now rewrite H1, H2].
  cbn [Json.parse_elems]. rewrite H1. reflexivity.
Qed.

Lemma parse_value_array f t vs r r' :
  Json.parse_elems f (34 :: t ++ r) = Some (vs, r') ->
  Json.parse_value (S f) (91 :: 34 :: t ++ r) = Some (PList vs, r').
Proof.
  intros H.
  transitivity (match Json.parse_elems f (34 :: t ++ r) with
                | Some (vs0, rest) => Some (PList vs0, rest)
                | None => None
                end); [reflexivity | now rewrite H].
Qed.

(** The elements of a dumped list are read back one by one. *)
Lemma parse_elems_dumped l : forall fuel r,
  l <> [] ->
  forallb well_formed l = true ->
  (List.length l < fuel)%nat ->
  Json.parse_elems fuel
    (join [44; 32] (map Json.encode_basestring_ascii l) ++ 93 :: r)
  = Some (map PStr l, r).
Proof.
  induction l as [|s l IH]; intros fuel r Hne Hwf Hfuel; [congruence|].
  cbn [forallb] in Hwf. apply andb_prop in Hwf as [Hs Hl].
  destruct fuel as [|[|f]]; cbn [List.length] in Hfuel; try lia.
  destruct l as [|s' l'].
  - cbn [map join]. rewrite encoded_head. cbn [app].
    apply parse_elems_last. rewrite parse_value_string.
    now rewrite scanstring_encoded.
  - change (join [44; 32] (map Json.encode_basestring_ascii (s :: s' :: l')))
      with (Json.encode_basestring_ascii s ++ [44; 32]
            ++ join [44; 32] (map Json.encode_basestring_ascii (s' :: l'))).
    rewrite encoded_head, <- !app_assoc.
    destruct (join_encoded_head s' l') as (t & Ht).
    specialize (IH (S f) r ltac:(discriminate) Hl
                  ltac:(cbn [List.length] in *; lia)).
    rewrite Ht in *. cbn [app] in *.
    eapply parse_elems_more; [|exact IH].
    rewrite parse_value_string. now rewrite scanstring_encoded.
Qed.

Lemma dumps_length l : (List.length l <= List.length (Json.dumps_list l))%nat.
Proof.
  unfold Json.dumps_list. cbn [List.length]. rewrite length_app.
  enough (List.length l
          <= List.length (join [44%N; 32%N]
                                (map Json.encode_basestring_ascii l)))%nat
    by lia.
  induction l as [|s [|s' l] IH]; [cbn; lia | cbn; lia |].
  change (join [44; 32] (map Json.encode_basestring_ascii (s :: s' :: l)))
    with (Json.encode_basestring_ascii s ++ [44; 32]
          ++ join [44; 32] (map Json.encode_basestring_ascii (s' :: l))).
  rewrite !length_app. cbn [List.length] in *.
  lia.
Qed.

(** [json.loads(json.dumps(l)) == l] for a list of well-formed strings. *)
Lemma loads_dumps l :
  forallb well_formed l = true ->
  Json.loads (Json.dumps_list l) = Some (PList (map PStr l)).
Proof.
  intros Hwf. pose proof (dumps_length l) as Hlen.
  unfold Json.loads.
  remember (List.length (Json.dumps_list l)) as n eqn:En. clear En.
  unfold Json.dumps_list.
  change (91 =? 0xFEFF) with false. cbv iota.
  change (Json.skip_ws (91 :: ?x)) with (91 :: x).
  replace (2 * n + 2)%nat with (S (S (2 * n))) by lia.
  destruct l as [|s l].
  - reflexivity.
  - destruct (join_encoded_head s l) as (t & Ht).
    assert (List.length (s :: l) < S (2 * n))%nat as Hfuel by lia.
    pose proof (parse_elems_dumped (s :: l) (S (2 * n)) []
                  ltac:(discriminate) Hwf Hfuel) as P.
    rewrite Ht in *. cbn [app] in *.
    rewrite (parse_value_array _ _ _ _ _ P). reflexivity.
Qed.

(** *** [ref_id] *)

Lemma eqb_eq a b : PyStr.eqb a b = true <-> a = b.
Proof.
  revert b. induction a as [|x a IH]; intros [|y b]; cbn; try easy.
  rewrite andb_true_iff, N.eqb_eq, IH. split.
  - now intros [-> ->].
  - now intros [= -> ->].
Qed.

Lemma eqb_neq a b : PyStr.eqb a b = false <-> a <> b.
Proof.
  rewrite <- eqb_eq. destruct (PyStr.eqb a b); split; congruence.
Qed.

Lemma nonempty_false {A} (l : list A) : nonempty l = false <-> l = [].
Proof. destruct l; cbn; split; congruence. Qed.

Lemma validate_items_strings l : validate_items (map PStr l) = Ok l.
Proof. induction l as [|s l IH]; cbn; [reflexivity | now rewrite IH]. Qed.

Lemma endswith_bracket a m : endswith [93] (a :: m ++ [93]) = true.
Proof.
  unfold endswith. change (a :: m ++ [93]) with ([a] ++ m ++ [93]).
  rewrite !rev_app_distr. reflexivity.
Qed.

(** A value read from text that opens with a bracket is a list. *)
Lemma loads_bracket v decoded :
  startswith [91] v = true -> Json.loads v = Some decoded ->
  exists items, decoded = PList items.
Proof.
  destruct v as [|c r]; [discriminate|]. cbn [startswith].
  rewrite andb_true_r. intros <-%N.eqb_eq. unfold Json.loads.
  change (91 =? 65279) with false. cbv iota.
  change (Json.skip_ws (91 :: r)) with (91 :: r).
  generalize (List.length (91 :: r)). intros n.
  replace (2 * n + 2)%nat with (S (2 * n + 1)) by lia.
  generalize (2 * n + 1)%nat. intros f.
  intros H.
  change
    (match (match Json.skip_ws r with
            | [] => None
            | d :: r' =>
                if d =? 93 then Some (PList [], r')
                else match Json.parse_elems f (d :: r') with
                     | Some (vs, rest) => Some (PList vs, rest)
                     | None => None
                     end
            end) with
     | Some (v, rest) =>
         match Json.skip_ws rest with
         | [] => Some v
         | _ :: _ => None
         end
     | None => None
     end = Some decoded) in H.
  destruct (Json.skip_ws r) as [|d r']; [discriminate|].
  destruct (d =? 93).
  - destruct (Json.skip_ws r'); [|discriminate]. injection H as <-. eauto.
  - destruct (Json.parse_elems f (d :: r')) as [[vs rest]|]; [|discriminate].
    destruct (Json.skip_ws rest); [|discriminate]. injection H as <-. eauto.
Qed.

(** C6.  Normalisation of a [ref_id] given as text [s], with [v] the text
    stripped of surrounding white space.  The sentinel and the empty text
    give the empty list; text in brackets that decodes as JSON gives the
    decoded list; other text with a comma gives its comma-separated pieces,
    each stripped of white space and then of quotes; any other text gives
    the one-element list of that text, stripped the same way. *)
Theorem parse_ref_id_cases (s : str) :
  let v := strip s in
  let trim := fun item => PStr (strip_chars quote_chars (strip item)) in
  let bracketed := startswith [91] v && endswith [93] v in
  ((v = is_blank \/ v = []) -> parse_ref_id (PStr s) = PList [])
  /\ (forall decoded,
        v <> is_blank -> v <> [] -> bracketed = true ->
        Json.loads v = Some decoded ->
        parse_ref_id (PStr s) = decoded
        /\ exists items, decoded = PList items)
  /\ (v <> is_blank -> v <> [] ->
      (bracketed = false \/ Json.loads v = None) ->
      mem 44 v = true ->
      parse_ref_id (PStr s) = PList (map trim (split 44 v)))
  /\ (v <> is_blank -> v <> [] ->
      (bracketed = false \/ Json.loads v = None) ->
      mem 44 v = false ->
      parse_ref_id (PStr s) = PList [trim v]).
Proof.
  intros v trim bracketed. unfold parse_ref_id. fold v. fold bracketed.
  split; [|split; [|split]].
  - intros [H|H].
    + apply eqb_eq in H. now rewrite H.
    + apply nonempty_false in H. rewrite H. now rewrite orb_true_r.
  - intros decoded H1 H2 Hb Hd.
    apply eqb_neq in H1. rewrite H1.
    destruct (nonempty v) eqn:Hn; [|now apply nonempty_false in Hn].
    cbn [negb orb]. rewrite Hb, Hd. split; [reflexivity|].
    apply andb_prop in Hb as [Hb _]. eapply loads_bracket; eauto.
  - intros H1 H2 Hnot Hc.
    apply eqb_neq in H1. rewrite H1.
    destruct (nonempty v) eqn:Hn; [|now apply nonempty_false in Hn].
    cbn [negb orb]. rewrite Hc.
    destruct Hnot as [-> | Hnot]; [reflexivity|].
    rewrite Hnot. now destruct bracketed.
  - intros H1 H2 Hnot Hc.
    apply eqb_neq in H1. rewrite H1.
    destruct (nonempty v) eqn:Hn; [|now apply nonempty_false in Hn].
    cbn [negb orb]. rewrite Hc.
    destruct Hnot as [-> | Hnot]; [reflexivity|].
    rewrite Hnot. now destruct bracketed.
Qed.

Lemma strip_dumps l : strip (Json.dumps_list l) = Json.dumps_list l.
Proof. unfold strip, Json.dumps_list. apply strip_with_fixed; reflexivity. Qed.

(** C7.  A list of strings written to its CSV text ([[]] for the empty list,
    the JSON text of the list otherwise) and read back as a [ref_id] is the
    same list: for every length, so for 0, 1 and 3 elements. *)
Theorem ref_id_round_trip (l : list str) :
  forallb well_formed l = true ->
  ref_id_field (PStr (csv_ref_id l)) = Ok l.
Proof.
  intros Hwf. unfold ref_id_field.
  assert (parse_ref_id (PStr (csv_ref_id l)) = PList (map PStr l)) as ->.
  { destruct l as [|s l]; [reflexivity|].
    unfold csv_ref_id. cbn [nonempty].
    unfold parse_ref_id. rewrite strip_dumps.
    change (PyStr.eqb (Json.dumps_list (s :: l)) is_blank) with false.
    change (nonempty (Json.dumps_list (s :: l))) with true.
    cbn [negb orb].
    change (startswith [91] (Json.dumps_list (s :: l))) with true.
    unfold Json.dumps_list at 1. rewrite endswith_bracket. cbn [andb].
    now rewrite loads_dumps. }
  apply validate_items_strings.
Qed.

(** *** The embedded-object stage *)

(** Text whose brace span is not JSON is handed to the labelled stages. *)
Lemma undecodable_object_falls_through text qid q span :
  nonempty text = true -> nonempty (strip text) = true ->
  brace_span (strip text) = Some span ->
  Json.loads span = None ->
  parse_answer text qid q = labeled_stages (strip text) qid q.
Proof.
  intros H1 H2 Hs Hl. unfold parse_answer. rewrite H1, H2. cbn [negb orb].
  unfold _try_parse_json, json_loads. rewrite Hs, Hl. reflexivity.
Qed.

(** The labelled stages themselves never raise. *)
Lemma labeled_stages_returns text qid q :
  exists r, labeled_stages text qid q = Ok r.
Proof.
  unfold labeled_stages. destruct (negb _); [|eauto].
  destruct (new_RAGAnswer _ _ _ _ _ _ _ _); eauto.
Qed.

(** C3, at the failing input.  The object [{"answer": null}] is valid JSON
    but not a valid answer: the validation error of the record leaves
    [_try_parse_json], which catches decoding errors only, and leaves
    [parse_answer]. *)
Theorem null_answer_raises qid q :
  _try_parse_json (jlit "{'answer': null}") qid q = Raise ValidationError
  /\ parse_answer (jlit "{'answer': null}") qid q = Raise ValidationError.
Proof. split; reflexivity. Qed.

(** *** The batch: one step of one task *)

Lemma sum_insert {A} (f : A -> nat) (l : list A) i t t' :
  l !! i = Some t ->
  (list_sum (map f (<[i := t']> l)) + f t = list_sum (map f l) + f t')%nat.
Proof.
  revert i. induction l as [|x l IH]; intros [|i] H; try discriminate.
  - injection H as ->. cbn. lia.
  - specialize (IH i H).
    change (<[S i := t']> (x :: l)) with (x :: <[i := t']> l).
    cbn [map]. unfold list_sum in *. cbn [fold_right]. lia.
Qed.

Lemma count_insert {A} (p : A -> bool) (l : list A) i t t' :
  l !! i = Some t ->
  (List.length (List.filter p (<[i := t']> l)) + Nat.b2n (p t)
   = List.length (List.filter p l) + Nat.b2n (p t'))%nat.
Proof.
  revert i. induction l as [|x l IH]; intros [|i] H; try discriminate.
  - injection H as ->. cbn. destruct (p t), (p t'); cbn; lia.
  - specialize (IH i H).
    change (<[S i := t']> (x :: l)) with (x :: <[i := t']> l).
    cbn [List.filter]. destruct (p x); cbn [List.length]; lia.
Qed.

Lemma loop_body_backoff self q qid a lr le o lr' le' d :
  loop_body self q qid a lr le o = BNext lr' le' d -> d = backoff self a.
Proof.
  unfold loop_body, on_exception. destruct o as [response|e].
  - destruct (parse_answer response qid q) as [[r|]|e].
    + discriminate.
    + destruct (backoff self a) eqn:Hb.
      * now intros [= _ _ <-].
      * rewrite failure_record_ok. discriminate.
    + now intros [= _ _ <-].
  - now intros [= _ _ <-].
Qed.

Lemma loop_body_return_ids self q qid a lr le o r :
  loop_body self q qid a lr le o = BReturn r -> id r = qid /\ question r = q.
Proof.
  unfold loop_body, on_exception. destruct o as [response|e]; [|discriminate].
  destruct (parse_answer response qid q) as [[r'|]|e] eqn:Hp.
  - intros [= <-]. eapply parse_answer_ids, Hp.
  - destruct (backoff self a); [discriminate|].
    rewrite failure_record_ok. intros [= <-]. split; reflexivity.
  - discriminate.
Qed.

Lemma on_item_exception_props self qd e :
  let t := on_item_exception qd e in
  task_ok self qd t /\ (task_measure self t <= 1)%nat /\ started t.
Proof.
  unfold on_item_exception. destruct progress_callback.
  - repeat split; cbn; lia.
  - rewrite failure_record_ok. repeat split; cbn; lia.
Qed.

Lemma after_query_props self qd r :
  (forall a, r = Ok a -> has_ids qd a) ->
  let t := after_query qd r in
  task_ok self qd t /\ (task_measure self t <= 2)%nat /\ started t.
Proof.
  intros Hr. unfold after_query. destruct r as [a|e].
  - destruct progress_callback; repeat split; cbn; try lia; apply Hr;
      reflexivity.
  - destruct (on_item_exception_props self qd e) as (? & ? & ?).
    repeat split; auto; lia.
Qed.

Lemma failure_record_ids qd lr le a :
  _create_failure_record (q_id qd) (q_question qd) lr le = Ok a ->
  has_ids qd a.
Proof. rewrite failure_record_ok. intros [= <-]. split; reflexivity. Qed.

Lemma resume_props self qd a lr le :
  let t := resume self qd a lr le in
  task_ok self qd t
  /\ (task_measure self t <= 2 * (attempts (query_processor self) - a) + 3)%nat
  /\ started t.
Proof.
  unfold resume, processor.
  destruct (Nat.ltb_spec a (attempts (query_processor self))).
  - repeat split; cbn; unfold processor; lia.
  - destruct (after_query_props self qd
                (_create_failure_record (q_id qd) (q_question qd) lr le))
      as (? & ? & ?).
    { intros r. apply failure_record_ids. }
    repeat split; auto; lia.
Qed.

Lemma backoff_attempt self a d :
  backoff self a = Some d -> (S a < attempts self)%nat.
Proof. intros H%backoff_more. unfold attempts. lia. Qed.

Lemma backoff_exhausted self a :
  backoff self a = None -> (attempts self <= S a)%nat.
Proof. intros H%backoff_last. unfold attempts. lia. Qed.

Ltac task_facts :=
  cbn [task_measure task_ok in_flight is_done negb] in *;
  unfold processor in *;
  repeat match goal with H : has_ids _ _ |- _ => destruct H end;
  repeat split; auto;
  cbn [task_measure task_ok in_flight is_done negb];
  try reflexivity; try lia.

(** What a step of a task in flight preserves and consumes. *)
Lemma advance_props self questions tmpl qd t w t' w' :
  advance self questions tmpl qd t w = Some (t', w') ->
  task_ok self qd t ->
  task_ok self qd t' /\ (task_measure self t' < task_measure self t)%nat
  /\ started t' /\ in_flight t = true.
Proof.
  destruct t as [|a lr le|d n lr le|r|e|r]; cbn [advance]; try discriminate.
  - destruct (aquery _ _ w) as [o w1].
    destruct (loop_body _ _ _ a lr le o) as [r|lr' le' [d|]] eqn:Hl;
      intros [= <- <-] Hok.
    + destruct (loop_body_return_ids _ _ _ _ _ _ _ _ Hl) as [? ?].
      unfold after_query. destruct progress_callback; task_facts.
    + apply loop_body_backoff in Hl. symmetry in Hl.
      apply backoff_attempt in Hl. task_facts.
    + apply loop_body_backoff in Hl. symmetry in Hl.
      apply backoff_exhausted in Hl.
      destruct (resume_props self qd (S a) lr' le') as (? & ? & ?).
      task_facts.
  - intros [= <- <-] Hok.
    destruct (resume_props self qd n lr le) as (? & ? & ?).
    task_facts.
  - destruct (run_callback _ _ _ w) as [o w1]. intros [= <- <-] Hok.
    destruct o as [u|e].
    + task_facts.
    + destruct (on_item_exception_props self qd e) as (? & ? & ?).
      task_facts.
  - destruct (run_callback _ _ _ w) as [o w1]. intros [= <- <-] Hok.
    destruct o as [u|e'].
    + rewrite failure_record_ok. task_facts.
    + task_facts.
Qed.

(** *** The batch: steps of the event loop *)

Lemma step_at_cases self qs tmpl i s s' :
  step_at self qs tmpl i s = Some s' ->
  exists qd t t' sem0 w',
    qs !! i = Some qd /\ tasks s !! i = Some t /\ s' = put i t' sem0 w' s
    /\ ((t = TWaiting /\ (0 < sem s)%Z /\ sem0 = (sem s - 1)%Z
         /\ t' = resume self qd 0 None None)
        \/ (sem0 = sem s
            /\ advance self qs tmpl qd t (world s) = Some (t', w'))).
Proof.
  unfold step_at. destruct (qs !! i) as [qd|]; [|discriminate].
  destruct (tasks s !! i) as [t|]; [|discriminate].
  destruct t as [|a lr le|d n lr le|r|e|r].
  - destruct (Z.ltb_spec 0 (sem s)); [|discriminate]. intros [= <-].
    eexists qd, TWaiting, _, _, _. repeat split; eauto.
  - destruct (advance _ _ _ _ _ _) as [[t' w']|] eqn:E; [|discriminate].
    intros [= <-]. eexists qd, _, t', _, w'. repeat split; eauto.
  - destruct (advance _ _ _ _ _ _) as [[t' w']|] eqn:E; [|discriminate].
    intros [= <-]. eexists qd, _, t', _, w'. repeat split; eauto.
  - destruct (advance _ _ _ _ _ _) as [[t' w']|] eqn:E; [|discriminate].
    intros [= <-]. eexists qd, _, t', _, w'. repeat split; eauto.
  - destruct (advance _ _ _ _ _ _) as [[t' w']|] eqn:E; [|discriminate].
    intros [= <-]. eexists qd, _, t', _, w'. repeat split; eauto.
  - discriminate.
Qed.

(** Every step keeps the invariant and uses up some of the measure. *)
Lemma step_at_invariant self qs tmpl i s s' :
  step_at self qs tmpl i s = Some s' ->
  invariant self qs s ->
  invariant self qs s' /\ (measure self s' < measure self s)%nat.
Proof.
  intros Hstep [Htasks Hslots Hsem].
  apply step_at_cases in Hstep
    as (qd & t & t' & sem0 & w' & Hq & Ht & -> & Hcase).
  pose proof (Forall2_lookup_lr _ _ _ _ _ _ Htasks Hq Ht) as Hok.
  assert (task_ok self qd t' /\ (task_measure self t' < task_measure self t)%nat
          /\ started t'
          /\ (sem0 = sem s - 1 + Z.of_nat (Nat.b2n (in_flight t)))%Z
          /\ (0 <= sem s -> 0 <= sem0)%Z) as (Hok' & Hm & Hst & Hs0 & Hnn).
  { destruct Hcase as [(-> & Hpos & -> & ->) | (-> & Hadv)].
    - destruct (resume_props self qd 0 None None) as (? & ? & ?).
      repeat split; auto; cbn [task_measure in_flight Nat.b2n];
        unfold processor in *; lia.
    - destruct (advance_props _ _ _ _ _ _ _ _ Hadv Hok) as (? & ? & ? & ->).
      repeat split; auto; cbn [Nat.b2n]; lia. }
  pose proof (count_insert in_flight (tasks s) i t t' Ht) as Hc.
  pose proof (sum_insert (task_measure self) (tasks s) i t t' Ht) as Hsum.
  split; [split|].
  - cbn [put tasks]. rewrite <- (list_insert_id qs i qd Hq).
    now apply Forall2_insert.
  - unfold in_flight_count in *. cbn [put tasks sem].
    unfold started in Hst.
    destruct (is_done t'), (in_flight t'), (in_flight t);
      cbn in Hst, Hc, Hs0 |- *; try discriminate; lia.
  - cbn [put sem]. intros Hl. specialize (Hsem Hl).
    destruct (is_done t'); lia.
  - unfold measure. cbn [put tasks]. lia.
Qed.

Lemma initial_in_flight self qs w :
  in_flight_count (initial self qs w) = O.
Proof.
  unfold in_flight_count, initial. cbn [tasks].
  induction qs as [|qd qs IH]; [reflexivity | exact IH].
Qed.

Lemma initial_invariant self qs w : invariant self qs (initial self qs w).
Proof.
  split.
  - cbn [initial tasks]. induction qs; constructor; cbn; auto.
  - rewrite initial_in_flight. cbn [initial sem]. lia.
  - auto.
Qed.

Lemma run_invariant self qs tmpl s s' :
  run self qs tmpl s s' -> invariant self qs s -> invariant self qs s'.
Proof.
  induction 1 as [|s s' s'' _ IH Hstep]; intros Hinv; [assumption|].
  destruct Hstep as [i s' s'' Hstep].
  eapply step_at_invariant; eauto.
Qed.

Lemma reachable_invariant self qs tmpl w s :
  reachable self qs tmpl w s -> invariant self qs s.
Proof. intros H. eapply run_invariant; [exact H | apply initial_invariant]. Qed.

Lemma run_trans self qs tmpl s1 s2 s3 :
  run self qs tmpl s1 s2 -> run self qs tmpl s2 s3 -> run self qs tmpl s1 s3.
Proof.
  intros H12 H23. induction H23 as [s|s s' s'' _ IH Hstep]; [assumption|].
  eapply run_step; [apply IH, H12 | exact Hstep].
Qed.

Lemma run_schedule_run self qs tmpl schedule s :
  run self qs tmpl s (run_schedule self qs tmpl schedule s).
Proof.
  revert s. induction schedule as [|i rest IH]; intros s; cbn [run_schedule].
  - constructor.
  - destruct (step_at self qs tmpl i s) as [s'|] eqn:E; [|apply IH].
    eapply run_trans; [|apply IH].
    eapply run_step; [constructor | econstructor; exact E].
Qed.

Lemma advance_in_flight self qs tmpl qd t w :
  in_flight t = true -> exists t' w', advance self qs tmpl qd t w = Some (t', w').
Proof.
  destruct t; try discriminate; intros _; cbn [advance].
  - destruct (aquery _ _ w). eauto.
  - eauto.
  - destruct (run_callback _ _ _ w). eauto.
  - destruct (run_callback _ _ _ w). eauto.
Qed.

Lemma step_at_in_flight self qs tmpl i s qd t :
  qs !! i = Some qd -> tasks s !! i = Some t -> in_flight t = true ->
  exists s', step_at self qs tmpl i s = Some s'.
Proof.
  intros Hq Ht Hf. unfold step_at. rewrite Hq, Ht.
  destruct (advance_in_flight self qs tmpl qd t (world s) Hf) as (t' & w' & E).
  destruct t; try discriminate; rewrite E; eauto.
Qed.

Lemma find_task (p : tstate -> bool) (ts : list tstate) :
  existsb p ts = true -> exists i t, ts !! i = Some t /\ p t = true.
Proof.
  induction ts as [|t ts IH]; [discriminate|]. cbn [existsb].
  destruct (p t) eqn:E.
  - intros _. exists O, t. auto.
  - intros H. destruct (IH H) as (i & t' & ? & ?). exists (S i), t'. auto.
Qed.

Lemma none_in_flight (ts : list tstate) :
  existsb in_flight ts = false -> List.filter in_flight ts = [].
Proof.
  induction ts as [|t ts IH]; [reflexivity|]. cbn [existsb List.filter].
  destruct (in_flight t); [discriminate|]. exact IH.
Qed.

Lemma not_all_done (ts : list tstate) :
  forallb is_done ts = false -> existsb (fun t => negb (is_done t)) ts = true.
Proof.
  induction ts as [|t ts IH]; [discriminate|]. cbn [forallb existsb].
  destruct (is_done t); cbn; auto.
Qed.

(** With a slot to give, an unfinished batch is never stuck. *)
Lemma progress self qs tmpl s :
  invariant self qs s -> (0 < concurrent_limit self)%Z ->
  all_done s = false ->
  exists i s', step_at self qs tmpl i s = Some s'.
Proof.
  intros [Htasks Hslots _] Hlimit Hnot.
  destruct (existsb in_flight (tasks s)) eqn:Hex.
  - apply find_task in Hex as (i & t & Ht & Hf).
    destruct (Forall2_lookup_r _ _ _ _ _ Htasks Ht) as (qd & Hq & _).
    destruct (step_at_in_flight self qs tmpl i s qd t Hq Ht Hf) as (s' & E).
    eauto.
  - apply none_in_flight in Hex. unfold in_flight_count in Hslots.
    rewrite Hex in Hslots. cbn in Hslots.
    apply not_all_done, find_task in Hnot as (i & t & Ht & Hd).
    destruct (Forall2_lookup_r _ _ _ _ _ Htasks Ht) as (qd & Hq & _).
    assert (in_flight t = false) as Hf.
    { destruct (in_flight t) eqn:E; [|reflexivity].
      apply list_elem_of_lookup_2, list_elem_of_In in Ht.
      assert (In t (List.filter in_flight (tasks s))) as Hin
        by (apply filter_In; auto).
      rewrite Hex in Hin. destruct Hin. }
    destruct t; try discriminate.
    exists i. unfold step_at. rewrite Hq, Ht.
    destruct (Z.ltb_spec 0 (sem s)); [eauto | lia].
Qed.

(** Every interleaving can be continued to the end of the batch. *)
Lemma eventually_done self qs tmpl :
  (0 < concurrent_limit self)%Z ->
  forall n s, (measure self s < n)%nat -> invariant self qs s ->
  exists s', run self qs tmpl s s' /\ all_done s' = true.
Proof.
  intros Hlimit. induction n as [|n IH]; intros s Hn Hinv; [lia|].
  destruct (all_done s) eqn:Hd.
  - exists s. split; [constructor | assumption].
  - destruct (progress self qs tmpl s Hinv Hlimit Hd) as (i & s1 & Hstep).
    destruct (step_at_invariant _ _ _ _ _ _ Hstep Hinv) as (Hinv1 & Hm).
    destruct (IH s1 ltac:(lia) Hinv1) as (s' & Hrun & Hdone).
    exists s'. split; [|assumption].
    eapply run_trans; [|exact Hrun].
    eapply run_step; [constructor | econstructor; exact Hstep].
Qed.

(** The output of a finished batch, slot by slot. *)
Lemma finished_results self (qs : list question_data) (ts : list tstate) :
  Forall2 (task_ok self) qs ts -> forallb is_done ts = true ->
  exists rs,
    processed_results qs ts = Some (Ok rs)
    /\ List.length rs = List.length qs
    /\ forall i qd t,
         qs !! i = Some qd -> ts !! i = Some t ->
         exists r, rs !! i = Some r /\ has_ids qd r /\ slot_result qd t r.
Proof.
  induction 1 as [|qd t qs ts Hok _ IH]; intros Hdone.
  - exists []. repeat split; auto. intros i ? ? H. destruct i; discriminate.
  - cbn [forallb] in Hdone. apply andb_prop in Hdone as [Hd Hds].
    destruct (IH Hds) as (rs & Hrs & Hlen & Hslots).
    destruct t as [| | | | |r0]; try discriminate.
    assert (exists r, processed qd (TDone r0) = Some (Ok r)
                      /\ has_ids qd r /\ slot_result qd (TDone r0) r)
      as (r & Hp & Hid & Hslot).
    { destruct r0 as [a|e]; cbn [processed slot_result].
      - exists a. auto.
      - rewrite failure_record_ok. eexists. repeat split. }
    exists (r :: rs). cbn [processed_results]. rewrite Hp, Hrs.
    split; [reflexivity|]. split; [cbn; lia|].
    intros [|i] qd' t' Hq Ht.
    + injection Hq as <-. injection Ht as <-. exists r. auto.
    + apply (Hslots i qd' t' Hq Ht).
Qed.

Lemma done_not_in_flight (ts : list tstate) :
  forallb is_done ts = true -> List.filter in_flight ts = [].
Proof.
  induction ts as [|t ts IH]; [reflexivity|]. cbn [forallb List.filter].
  intros [Hd Hds]%andb_prop. destruct t; try discriminate. cbn. auto.
Qed.

(** C5.  Whatever the order in which the event loop runs the tasks, a batch
    that has finished yields one record per question, in the order of the
    questions: slot [i] carries the identifier and the text of question [i].
    The slot of a task that returned holds what it returned; the slot of a
    task that raised holds the failure record made from its exception, and
    the other slots are as their own tasks left them.  Every step uses up
    some of a finite measure, and with a positive concurrency limit every
    reachable state can be run to the end, so the batch does return. *)
Theorem process_batch_ordered self qs tmpl w :
  (forall s, reachable self qs tmpl w s -> all_done s = true ->
     exists rs,
       processed_results qs (tasks s) = Some (Ok rs)
       /\ List.length rs = List.length qs
       /\ forall i qd t,
            qs !! i = Some qd -> tasks s !! i = Some t ->
            exists r, rs !! i = Some r
                      /\ id r = q_id qd /\ question r = q_question qd
                      /\ slot_result qd t r)
  /\ (forall r, process_batch self qs tmpl w r ->
        exists rs, r = Ok rs /\ List.length rs = List.length qs
                   /\ map (fun a => (id a, question a)) rs
                      = map (fun qd => (q_id qd, q_question qd)) qs)
  /\ (forall s s', reachable self qs tmpl w s -> step self qs tmpl s s' ->
        (measure self s' < measure self s)%nat)
  /\ ((0 < concurrent_limit self)%Z ->
      forall s, reachable self qs tmpl w s ->
      exists s', run self qs tmpl s s' /\ all_done s' = true).
Proof.
  assert (forall s, reachable self qs tmpl w s -> all_done s = true ->
     exists rs,
       processed_results qs (tasks s) = Some (Ok rs)
       /\ List.length rs = List.length qs
       /\ forall i qd t,
            qs !! i = Some qd -> tasks s !! i = Some t ->
            exists r, rs !! i = Some r
                      /\ id r = q_id qd /\ question r = q_question qd
                      /\ slot_result qd t r) as Hfinished.
  { intros s Hs Hdone. apply reachable_invariant in Hs as [Htasks _ _].
    destruct (finished_results self qs (tasks s) Htasks Hdone)
      as (rs & Hrs & Hlen & Hslots).
    exists rs. repeat split; auto. intros i qd t Hq Ht.
    destruct (Hslots i qd t Hq Ht) as (r & ? & [? ?] & ?). eauto 6. }
  split; [exact Hfinished|]. split; [|split].
  - intros r (s & Hs & Hdone & Hr).
    pose proof (reachable_invariant _ _ _ _ _ Hs) as [Htasks _ _].
    destruct (Hfinished s Hs Hdone) as (rs & Hrs & Hlen & Hslots).
    exists rs. split; [congruence|]. split; [assumption|].
    apply list_eq. intros i. rewrite !list_lookup_fmap.
    destruct (qs !! i) as [qd|] eqn:Hq.
    + destruct (Forall2_lookup_l _ _ _ _ _ Htasks Hq) as (t & Ht & _).
      destruct (Hslots i qd t Hq Ht) as (a & Ha & Hi & Hqn & _).
      rewrite Ha. cbn. now rewrite Hi, Hqn.
    + apply lookup_ge_None in Hq.
      rewrite (proj2 (lookup_ge_None rs i)) by lia. reflexivity.
  - intros s s' Hs Hstep. destruct Hstep as [i s s' Hstep].
    eapply step_at_invariant; [exact Hstep|].
    eapply reachable_invariant, Hs.
  - intros Hlimit s Hs.
    eapply (eventually_done self qs tmpl Hlimit (S (measure self s)));
      [lia | eapply reachable_invariant, Hs].
Qed.

(** C9.  With a concurrency limit of 2 and five questions, in every state the
    event loop can reach at most two tasks are in flight: the tasks between
    their entry into [async with self.semaphore] and their end, whether they
    wait for the service, sleep before a retry or run the callback.  The
    value of the semaphore and the number of tasks in flight always add up
    to 2, so every task that ends, with a record or with an exception, has
    given its slot back; when all have ended the semaphore is at 2 again. *)
Theorem concurrency_bound self qs tmpl w s :
  concurrent_limit self = 2%Z ->
  List.length qs = 5%nat ->
  reachable self qs tmpl w s ->
  (in_flight_count s <= 2)%nat
  /\ (sem s + Z.of_nat (in_flight_count s) = 2)%Z
  /\ (0 <= sem s)%Z
  /\ (all_done s = true -> sem s = 2%Z).
Proof.
  intros Hlimit _ Hs. apply reachable_invariant in Hs as [_ Hslots Hsem].
  rewrite Hlimit in *. specialize (Hsem ltac:(lia)).
  repeat split; try lia.
  intros Hdone. unfold in_flight_count in Hslots.
  rewrite (done_not_in_flight _ Hdone) in Hslots. cbn in Hslots. lia.
Qed.


(** ** Further properties *)

(** *** The extractor *)

(** X1.  A record returned by [parse_answer] carries the identifier and the
    question text given by the caller, whatever the response text holds. *)
Theorem extracted_record_ids text qid q r :
  parse_answer text qid q = Ok (Some r) -> id r = qid /\ question r = q.
Proof. apply parse_answer_ids. Qed.

Lemma drop_while_all p (s : str) :
  forallb p s = true -> drop_while p s = [].
Proof.
  induction s as [|c s IH]; [reflexivity|]. cbn [forallb drop_while].
  intros [Hc Hs]%andb_prop. rewrite Hc. auto.
Qed.

Lemma strip_blank s : forallb isspace s = true -> strip s = [].
Proof.
  intros H. unfold strip, strip_with. now rewrite (drop_while_all _ _ H).
Qed.

(** X2.  Text that is empty or holds white space only gives no record, and
    no exception. *)
Theorem blank_text_fails text qid q :
  forallb isspace text = true -> parse_answer text qid q = Ok None.
Proof.
  intros H. unfold parse_answer. rewrite (strip_blank _ H).
  cbn [nonempty negb]. now rewrite orb_true_r.
Qed.

(** A value read from text that opens with a brace is a dictionary. *)
Lemma loads_brace r decoded :
  Json.loads (123 :: r) = Some decoded -> exists items, decoded = PDict items.
Proof.
  unfold Json.loads.
  change (123 =? 65279) with false. cbv iota.
  change (Json.skip_ws (123 :: r)) with (123 :: r).
  generalize (List.length (123 :: r)). intros n.
  replace (2 * n + 2)%nat with (S (2 * n + 1)) by lia.
  generalize (2 * n + 1)%nat. intros f H.
  change
    (match (match Json.skip_ws r with
            | [] => None
            | d :: r' =>
                if d =? 125 then Some (PDict [], r')
                else match Json.parse_members f (d :: r') with
                     | Some (kvs, rest) => Some (PDict kvs, rest)
                     | None => None
                     end
            end) with
     | Some (v, rest) =>
         match Json.skip_ws rest with
         | [] => Some v
         | _ :: _ => None
         end
     | None => None
     end = Some decoded) in H.
  destruct (Json.skip_ws r) as [|d r']; [discriminate|].
  destruct (d =? 125).
  - destruct (Json.skip_ws r'); [|discriminate]. injection H as <-. eauto.
  - destruct (Json.parse_members f (d :: r')) as [[kvs rest]|]; [|discriminate].
    destruct (Json.skip_ws rest); [|discriminate]. injection H as <-. eauto.
Qed.

Lemma brace_span_head text span :
  brace_span text = Some span -> exists r, span = 123 :: r.
Proof.
  unfold brace_span. destruct (drop_while _ text) as [|c r]; [discriminate|].
  destruct (rev (drop_while _ (rev r))); [discriminate|].
  intros [= <-]. eauto.
Qed.

Lemma bind_Raise_inv {A B} (m : result A) (k : A -> result B) e :
  m ≫= k = Raise e -> m = Raise e \/ exists a, m = Ok a /\ k a = Raise e.
Proof. destruct m as [a|e']; cbn; [eauto | intros [= ->]; auto]. Qed.

Lemma validate_str_error v e : validate_str v = Raise e -> e = ValidationError.
Proof.
  unfold validate_str.
  destruct v; try (now intros [= <-]); destruct (pyd_coerce_scalar _);
    try discriminate; now intros [= <-].
Qed.

Lemma validate_items_error l e :
  validate_items l = Raise e -> e = ValidationError.
Proof.
  induction l as [|v l IH]; cbn [validate_items]; [discriminate|].
  intros [H | (s & _ & H)]%bind_Raise_inv.
  - eapply validate_str_error, H.
  - apply bind_Raise_inv in H as [H | (ss & _ & H)]; [auto | discriminate].
Qed.

Lemma ref_id_field_error v e : ref_id_field v = Raise e -> e = ValidationError.
Proof.
  unfold ref_id_field, validate_list_str.
  destruct (parse_ref_id v); try (now intros [= <-]).
  apply validate_items_error.
Qed.

(** Whatever is wrong with the values, the model raises the one error. *)
Lemma new_RAGAnswer_error i q a av au rf sm ex e :
  new_RAGAnswer i q a av au rf sm ex = Raise e -> e = ValidationError.
Proof.
  unfold new_RAGAnswer. intros H.
  repeat (apply bind_Raise_inv in H as [H | (? & _ & H)];
          [first [eapply validate_str_error, H | eapply ref_id_field_error, H]|]).
  discriminate.
Qed.


Lemma new_RAGAnswer_fields i q a av au rf sm ex r :
  new_RAGAnswer i q a av au rf sm ex = Ok r ->
  validate_str i = Ok (id r)
  /\ validate_str q = Ok (question r)
  /\ validate_str a = Ok (answer r)
  /\ validate_str (parse_answer_value av) = Ok (answer_value r)
  /\ validate_str (parse_answer_unit au) = Ok (answer_unit r)
  /\ ref_id_field rf = Ok (ref_id r)
  /\ validate_str (parse_supporting_materials sm) = Ok (supporting_materials r)
  /\ validate_str (parse_explanation ex) = Ok (explanation r).
Proof.
  unfold new_RAGAnswer. intros H. do 8 bind_inv H. injection H as <-.
  cbn. repeat split; assumption.
Qed.

(** X4.  A record that [parse_answer] returns has the sentinel as its
    [answer] only when it was read from an embedded object: the labelled
    stages and the heuristics return a record only after they have found an
    answer. *)
Theorem blank_answer_only_from_object text qid q r :
  parse_answer text qid q = Ok (Some r) ->
  answer r = is_blank ->
  exists span items,
    brace_span (strip text) = Some span
    /\ Json.loads span = Some (PDict items).
Proof.
  unfold parse_answer.
  destruct (negb (nonempty text) || negb (nonempty (strip text)));
    [discriminate|].
  intros H Hblank. bind_inv H. destruct a as [r'|].
  - injection H as ->. unfold _try_parse_json in Ha.
    destruct (brace_span (strip text)) as [span|] eqn:Hs; [|discriminate].
    unfold json_loads in Ha.
    destruct (Json.loads span) as [v|] eqn:Hl; [|discriminate].
    destruct (brace_span_head _ _ Hs) as (t & ->).
    destruct (loads_brace _ _ Hl) as (items & ->). eauto.
  - unfold labeled_stages in H.
    destruct (PyStr.eqb (heuristic_answer (strip text)) is_blank) eqn:E;
      [discriminate|]. cbn [negb] in H.
    destruct (new_RAGAnswer _ _ _ _ _ _ _ _) as [r'|e] eqn:En; [|discriminate].
    injection H as ->.
    apply new_RAGAnswer_fields in En as (_ & _ & Ha' & _).
    injection Ha' as Ha'. apply eqb_neq in E. congruence.
Qed.


(** *** Records *)

Lemma drop_while_idem p (s : str) :
  drop_while p (drop_while p s) = drop_while p s.
Proof.
  induction s as [|c s IH]; [reflexivity|]. cbn [drop_while].
  destruct (p c) eqn:E; [exact IH|]. cbn [drop_while]. now rewrite E.
Qed.

Lemma drop_while_first p (s : str) c r :
  drop_while p s = c :: r -> p c = false.
Proof.
  induction s as [|d s IH]; [discriminate|]. cbn [drop_while].
  destruct (p d) eqn:E; [exact IH|]. now intros [= <- _].
Qed.

Lemma drop_while_suffix p (s : str) :
  exists pre, s = pre ++ drop_while p s.
Proof.
  induction s as [|c s [pre IH]]; [now exists []|]. cbn [drop_while].
  destruct (p c).
  - exists (c :: pre). cbn. now rewrite <- IH.
  - now exists [].
Qed.

(** Stripping twice is stripping once. *)
Lemma strip_with_idem p (s : str) :
  strip_with p (strip_with p s) = strip_with p s.
Proof.
  unfold strip_with.
  set (x := drop_while p s). set (z := drop_while p (rev x)).
  assert (drop_while p (rev z) = rev z) as ->.
  { destruct (rev z) as [|a w] eqn:Hz; [reflexivity|].
    apply drop_while_head.
    destruct (drop_while_suffix p (rev x)) as [pre Hpre]. fold z in Hpre.
    assert (x = (a :: w) ++ rev pre) as Hx.
    { rewrite <- Hz, <- rev_app_distr, <- Hpre. now rewrite rev_involutive. }
    apply (drop_while_first p s a (w ++ rev pre)). exact Hx. }
  rewrite rev_involutive. subst z. now rewrite drop_while_idem.
Qed.

(** X6.  In a record built from text, the four fields with a validator
    carry no white space at either end: stripping them changes nothing.
    This holds for every record of the labelled stages and for every failure
    record. *)
Theorem text_fields_stripped i q a av au rf sm ex r :
  new_RAGAnswer i q a (PStr av) (PStr au) rf (PStr sm) (PStr ex) = Ok r ->
  strip (answer_value r) = answer_value r
  /\ strip (answer_unit r) = answer_unit r
  /\ strip (supporting_materials r) = supporting_materials r
  /\ strip (explanation r) = explanation r.
Proof.
  intros H.
  apply new_RAGAnswer_fields in H as (_ & _ & _ & H1 & H2 & _ & H3 & H4).
  cbn in H1, H2, H3, H4.
  injection H1 as <-. injection H2 as <-. injection H3 as <-.
  injection H4 as <-.
  unfold strip. now rewrite !strip_with_idem.
Qed.

(** *** The quality score and the statistics *)

(** X7.  The quality score is 0 exactly when none of the five parts of a
    record is filled and 1 exactly when all five are; a record that passes
    [_validate_answer_quality] scores at least 0.3. *)
Theorem quality_score_extremes a :
  let filled (s : str) := nonempty s && negb (PyStr.eqb s is_blank) in
  (_calculate_quality_score a == 0 <->
     filled (answer a) = false /\ nonempty (ref_id a) = false
     /\ filled (answer_value a) = false
     /\ filled (supporting_materials a) = false
     /\ filled (explanation a) = false)%Q
  /\ (_calculate_quality_score a == 1 <->
        filled (answer a) = true /\ nonempty (ref_id a) = true
        /\ filled (answer_value a) = true
        /\ filled (supporting_materials a) = true
        /\ filled (explanation a) = true)%Q
  /\ (_validate_answer_quality a = true ->
      (3 # 10 <= _calculate_quality_score a)%Q).
Proof.
  intros filled. unfold _calculate_quality_score, _validate_answer_quality.
  subst filled. cbv beta.
  destruct (nonempty (answer a)); cbn [andb negb orb];
  destruct (PyStr.eqb (answer a) is_blank); cbn [andb negb orb];
  destruct (nonempty (ref_id a));
  destruct (nonempty (answer_value a)
            && negb (PyStr.eqb (answer_value a) is_blank));
  destruct (nonempty (supporting_materials a)
            && negb (PyStr.eqb (supporting_materials a) is_blank));
  destruct (nonempty (explanation a)
            && negb (PyStr.eqb (explanation a) is_blank));
  (split; [|split]);
  try (split; [intros H; try (now vm_compute in H); repeat split
              | intros (? & ? & ? & ? & ?); try discriminate;
                now vm_compute]);
  try (intros _; now vm_compute);
  try (intros H; discriminate H).
Qed.

Lemma sum_scores_range (l : list Q) :
  Forall (fun x => 0 <= x /\ x <= 1)%Q l ->
  forall acc,
    (acc <= fold_left Qplus l acc)%Q
    /\ (fold_left Qplus l acc <= acc + inject_Z (Z.of_nat (List.length l)))%Q.
Proof.
  induction 1 as [|x l [Hx0 Hx1] _ IH]; intros acc; cbn [fold_left List.length].
  - split; [apply Qle_refl|]. change (inject_Z (Z.of_nat 0)) with 0%Q.
    rewrite Qplus_0_r. apply Qle_refl.
  - destruct (IH (acc + x)%Q) as [Hlo Hhi]. split.
    + eapply Qle_trans; [|exact Hlo].
      rewrite <- (Qplus_0_r acc) at 1. apply Qplus_le_compat; [apply Qle_refl|].
      exact Hx0.
    + eapply Qle_trans; [exact Hhi|].
      rewrite Nat2Z.inj_succ, <- Z.add_1_l, inject_Z_plus.
      rewrite Qplus_assoc. apply Qplus_le_compat; [|apply Qle_refl].
      apply Qplus_le_compat; [apply Qle_refl | exact Hx1].
Qed.

Lemma ratio_range (a : Q) (n : nat) :
  (0 <= a)%Q -> (a <= inject_Z (Z.of_nat (S n)))%Q ->
  (0 <= a / inject_Z (Z.of_nat (S n)))%Q
  /\ (a / inject_Z (Z.of_nat (S n)) <= 1)%Q.
Proof.
  intros H0 H1.
  assert (0 < inject_Z (Z.of_nat (S n)))%Q as Hpos.
  { unfold Qlt. cbn. lia. }
  split.
  - apply Qle_shift_div_l; [exact Hpos|]. now rewrite Qmult_0_l.
  - apply Qle_shift_div_r; [exact Hpos|]. now rewrite Qmult_1_l.
Qed.

(** X8.  In the statistics of any list of results the counts add up
    ([successful + failed = total], none negative, [total] the length of the
    list), and both the success rate and the average quality lie between 0
    and 1.  The success rate is the fraction of successful results. *)
Theorem statistics_bounds self results st :
  get_statistics self results = Ok st ->
  total st = Z.of_nat (List.length results)
  /\ (0 <= successful st <= total st)%Z
  /\ (successful st + failed st = total st)%Z
  /\ (0 <= failed st)%Z
  /\ (0 <= success_rate st)%Q /\ (success_rate st <= 1)%Q
  /\ (0 <= average_quality_score st)%Q /\ (average_quality_score st <= 1)%Q
  /\ (results <> [] ->
      success_rate st = (inject_Z (successful st) / inject_Z (total st))%Q).
Proof.
  unfold get_statistics.
  pose proof (filter_length_le is_success results) as Hle.
  set (good := List.filter is_success results) in *.
  assert (Forall (fun x => 0 <= x /\ x <= 1)%Q
            (map _calculate_quality_score good)) as Hscores.
  { apply List.Forall_forall. intros x (a & <- & _)%in_map_iff.
    apply quality_score_range. }
  pose proof (sum_scores_range _ Hscores 0%Q) as [Hlo Hhi].
  rewrite Qplus_0_l in Hhi. rewrite length_map in *.
  assert (exists avg,
             (if nonempty (map _calculate_quality_score good)
              then py_div (fold_left Qplus (map _calculate_quality_score good) 0%Q)
                     (inject_Z (Z.of_nat (List.length good)))
              else Ok 0%Q) = Ok avg
             /\ (0 <= avg)%Q /\ (avg <= 1)%Q) as (avg & -> & Ha0 & Ha1).
  { destruct good as [|g good'] eqn:Eg.
    - exists 0%Q. cbn. repeat split; discriminate.
    - cbn [map nonempty List.length] in *. rewrite py_div_positive.
      eexists. split; [reflexivity|]. apply ratio_range; assumption. }
  cbn [mbind result_bind].
  destruct results as [|r rs] eqn:Er.
  - cbn. intros [= <-]. cbn.
    repeat split; try lia; try discriminate; try assumption.
  - rewrite <- Er in *. clear Hlo Hhi Hscores.
    assert (List.length results = S (List.length rs)) as Hlen by now rewrite Er.
    rewrite Hlen in *.
    replace (0 <? Z.of_nat (S (List.length rs)))%Z with true
      by (symmetry; apply Z.ltb_lt; lia).
    rewrite py_div_positive. cbn [mbind result_bind]. intros [= <-].
    cbn [total successful failed success_rate average_quality_score].
    assert (0 <= inject_Z (Z.of_nat (List.length good)))%Q as Hg0.
    { unfold Qle. cbn. lia. }
    assert (inject_Z (Z.of_nat (List.length good))
            <= inject_Z (Z.of_nat (S (List.length rs))))%Q as Hg1.
    { rewrite <- Zle_Qle. lia. }
    destruct (ratio_range _ _ Hg0 Hg1) as [? ?].
    repeat split; try lia; try assumption.
Qed.

(** *** The retry loop *)

Lemma backoff_log_cons self q t a n :
  backoff_log self q t a (S (S n))
  = EAsk q t :: ESleep (retry_delay self * inject_Z (Z.of_nat a + 1))%Q
      :: backoff_log self q t (S a) (S n).
Proof. reflexivity. Qed.

Lemma retry_loop_log self q qid tmpl n :
  forall a lr le w,
    (n = O \/ Z.of_nat (a + n) = max_retries self + 1)%Z ->
    exists k,
      snd (retry_loop self q qid tmpl n a lr le w)
      = backoff_log self q (template_arg tmpl) a k
      /\ (k <= n)%nat /\ (n <> O -> k <> O).
Proof.
  induction n as [|n IH]; intros a lr le w Hn; cbn [retry_loop].
  - exists O. cbn. repeat split; [lia | congruence].
  - destruct Hn as [Hn|Hn]; [discriminate|].
    destruct (aquery q (template_arg tmpl) w) as [o w1].
    destruct (loop_body self q qid a lr le o) as [r|lr' le' d] eqn:Hl.
    + exists 1%nat. cbn. repeat split; [lia | congruence].
    + apply loop_body_backoff in Hl. subst d.
      destruct (backoff self a) as [d|] eqn:Hb.
      * pose proof (backoff_more _ _ _ Hb) as Hmore.
        destruct n as [|n]; [lia|].
        destruct (IH (S a) lr' le' w1) as (k & Hk & Hkn & Hk0); [right; lia|].
        destruct (retry_loop self q qid tmpl (S n) (S a) lr' le' w1)
          as [[r w2] log].
        cbn [snd] in *. subst log.
        destruct k as [|k]; [now contradiction Hk0|].
        exists (S (S k)). rewrite backoff_log_cons. cbn [sleep_events app].
        unfold backoff in Hb.
        destruct (Z.of_nat a <? max_retries self)%Z; [|discriminate].
        injection Hb as <-. repeat split; [lia | congruence].
      * pose proof (backoff_last _ _ Hb) as Hlast.
        destruct n as [|n]; [|lia].
        cbn [retry_loop]. exists 1%nat. cbn. repeat split; [lia | congruence].
Qed.

(** X9.  The observable events of one query are calls to the service with a
    sleep between two calls and nowhere else: after call [k], counted from 1,
    [k] times the base delay.  There are at most [max_retries + 1] calls, at
    least one when [max_retries] is not negative, and no sleep follows the
    last call. *)
Theorem linear_backoff self q qid tmpl w :
  exists k,
    snd (query_with_retry self q qid tmpl w)
    = backoff_log self q (template_arg tmpl) 0 k
    /\ (k <= attempts self)%nat
    /\ ((0 <= max_retries self)%Z -> (1 <= k)%nat).
Proof.
  unfold query_with_retry.
  destruct (retry_loop_log self q qid tmpl (attempts self) O None None w)
    as (k & Hk & Hle & Hpos).
  { unfold attempts. destruct (Z.to_nat (max_retries self + 1)) eqn:E; [now left|].
    right. lia. }
  exists k. repeat split; [exact Hk | exact Hle |].
  intros Hm. unfold attempts in Hpos.
  assert (k <> O) by (apply Hpos; lia). lia.
Qed.

(** X10.  With a negative [max_retries] the service is never called: the
    query returns at once the failure record that reports a parse failure
    and no response, and leaves the world as it was. *)
Theorem negative_retries self q qid tmpl w :
  (max_retries self < 0)%Z ->
  query_with_retry self q qid tmpl w
  = (Ok {| id := qid; question := q; answer := failure_marker;
           answer_value := is_blank; answer_unit := is_blank; ref_id := [];
           supporting_materials := parse_failure;
           explanation := no_response |}, w, []).
Proof.
  intros Hneg. unfold query_with_retry, attempts.
  replace (Z.to_nat (max_retries self + 1)) with O by lia.
  cbn [retry_loop]. now rewrite failure_record_ok.
Qed.

(** *** The synchronous testers *)

Lemma sync_loop_returns qid q unit m d n :
  forall a lr le w,
    exists rec w' log,
      sync_loop qid q unit m d n a lr le w = (Ok rec, w', log)
      /\ id rec = qid /\ question rec = q
      /\ (ask_count log <= n)%nat.
Proof.
  induction n as [|n IH]; intros a lr le w; cbn [sync_loop].
  - rewrite failure_record_ok. eexists _, _, _. split; [reflexivity|].
    cbn. repeat split; lia.
  - destruct (query_lightrag qid q unit w) as [text w1].
    assert (forall le',
      exists rec w' log,
        (let '(r, w2, log) := sync_loop qid q unit m d n (S a) (Some text) le' w1
         in (r, w2, EAsk q None :: sync_sleep m d a ++ log))
        = (Ok rec, w', log)
        /\ id rec = qid /\ question rec = q
        /\ (ask_count log <= S n)%nat) as Hnext.
    { intros le'. destruct (IH (S a) (Some text) le' w1)
        as (rec & w' & log & -> & Hi & Hq & Hc).
      eexists _, _, _. split; [reflexivity|]. repeat split; auto.
      unfold ask_count in *. cbn [List.filter is_ask List.length].
      rewrite List.filter_app, length_app.
      assert (List.length (List.filter is_ask (sync_sleep m d a)) = O) as ->.
      { unfold sync_sleep. now destruct (_ <? _)%Z. }
      lia. }
    destruct (parse_answer text qid q) as [[r|]|e] eqn:Hp.
    + apply parse_answer_ids in Hp as [? ?].
      eexists _, _, _. split; [reflexivity|]. cbn. repeat split; auto. lia.
    + destruct (Z.of_nat a <? m)%Z; [apply Hnext|].
      rewrite failure_record_ok.
      eexists _, _, _. split; [reflexivity|]. cbn. repeat split; lia.
    + apply Hnext.
Qed.

Lemma sync_loop_retry_loop qid q unit m d th :
  (forall w, aquery q None w
             = (Ok (fst (query_lightrag qid q unit w)),
                snd (query_lightrag qid q unit w))) ->
  forall n a lr le w,
    sync_loop qid q unit m d n a lr le w
    = retry_loop {| max_retries := m; retry_delay := d;
                    quality_threshold := th |} q qid None n a lr le w.
Proof.
  intros Hservice. induction n as [|n IH]; intros a lr le w;
    cbn [sync_loop retry_loop]; [reflexivity|].
  cbn [template_arg]. rewrite Hservice.
  destruct (query_lightrag qid q unit w) as [text w1]. cbn [fst snd].
  unfold loop_body, on_exception, backoff, sync_sleep.
  cbn [max_retries retry_delay].
  destruct (parse_answer text qid q) as [[r|]|e]; [reflexivity| |].
  - destruct (Z.of_nat a <? m)%Z.
    + rewrite IH. now destruct (retry_loop _ _ _ _ _ _ _ _ _) as [[? ?] ?].
    + rewrite failure_record_ok. reflexivity.
  - rewrite IH. destruct (retry_loop _ _ _ _ _ _ _ _ _) as [[? ?] ?].
    now destruct (Z.of_nat a <? m)%Z.
Qed.



Lemma test_batch_from_returns d total :
  forall rows i w,
    Z.of_nat (i + List.length rows) = total ->
    exists rs w' logs,
      test_batch_from d total i rows w
      = (Ok rs, w',
         paused d (zip_with BQuestion (map row_id rows) logs))
      /\ List.length logs = List.length rows
      /\ map id rs = map row_id rows
      /\ map question rs = map row_question rows
      /\ Forall (fun log => ask_count log <= 4)%nat logs.
Proof.
  induction rows as [|r rows IH]; intros i w Hi; cbn [test_batch_from].
  - exists [], w, []. repeat split; auto.
  - destruct (sync_loop_returns (row_id r) (row_question r)
                (row_answer_unit r) 3 d (Z.to_nat (3 + 1)) O None None w)
      as (rec & w1 & log & E & Hid & Hq & Hc).
    unfold test_single_question_sync. rewrite E.
    cbn [List.length] in Hi.
    destruct (IH (S i) w1) as (rs & w2 & logs & E' & Hlen & Hids & Hqs & Hcs);
      [lia|].
    rewrite E'. exists (rec :: rs), w2, (log :: logs).
    cbn [map List.length zip_with]. rewrite Hid, Hq, Hids, Hqs, Hlen.
    repeat split; [|constructor; [exact Hc | exact Hcs]].
    f_equal. destruct rows as [|r' rows'].
    + destruct logs; [|discriminate].
      cbn [List.length] in Hi.
      replace (Z.of_nat i <? total - 1)%Z with false
        by (symmetry; apply Z.ltb_ge; lia).
      reflexivity.
    + destruct logs as [|log' logs']; [discriminate|].
      cbn [List.length] in Hi.
      replace (Z.of_nat i <? total - 1)%Z with true
        by (symmetry; apply Z.ltb_lt; lia).
      reflexivity.
Qed.


(** *** [extract_field_value] *)

Lemma pattern_named_key f : pattern_named (field_key f) = Some (Primary f).
Proof. now destruct f. Qed.

Lemma pattern_named_other name :
  (forall f, name <> field_key f) -> pattern_named name = None.
Proof.
  intros Hname. unfold pattern_named, all_fields. cbn [List.filter].
  assert (forall f, PyStr.eqb (field_key f) name = false) as Hf.
  { intros f. destruct (PyStr.eqb (field_key f) name) eqn:E; [|reflexivity].
    apply eqb_eq in E. now destruct (Hname f). }
  now rewrite !Hf.
Qed.


(** *** A batch and its queries *)

Lemma resume_alone self qd tmpl a lr le w :
  progress_callback = None ->
  run_alone self qd tmpl (resume self qd a lr le) w
  = fst (retry_loop (query_processor self) (q_question qd) (q_id qd) tmpl
           (attempts (query_processor self) - a) a lr le w).
Proof.
  intros Hcb. unfold resume, processor.
  destruct (Nat.ltb_spec a (attempts (query_processor self))) as [Hlt|Hge].
  - reflexivity.
  - replace (attempts (query_processor self) - a)%nat with O by lia.
    cbn [retry_loop fst]. rewrite failure_record_ok.
    unfold after_query. now rewrite Hcb.
Qed.

Lemma advance_alone self qs tmpl qd t w t' w' :
  progress_callback = None ->
  task_ok self qd t ->
  advance self qs tmpl qd t w = Some (t', w') ->
  run_alone self qd tmpl t' w' = run_alone self qd tmpl t w.
Proof.
  intros Hcb Hok.
  destruct t as [|a lr le|d a lr le|r|e|r]; cbn [advance]; try discriminate.
  - cbn [task_ok] in Hok. cbn [run_alone].
    replace (attempts (query_processor self) - a)%nat
      with (S (attempts (query_processor self) - S a)) by lia.
    cbn [retry_loop]. unfold processor.
    destruct (aquery (q_question qd) (template_arg tmpl) w) as [o w1].
    destruct (loop_body (query_processor self) (q_question qd) (q_id qd) a lr
                le o) as [r|lr' le' [d|]];
      intros [= <- <-].
    + unfold after_query. now rewrite Hcb.
    + cbn [run_alone].
      now destruct (retry_loop _ _ _ _ _ _ _ _ _) as [[? ?] ?].
    + rewrite resume_alone by exact Hcb.
      now destruct (retry_loop _ _ _ _ _ _ _ _ _) as [[? ?] ?].
  - intros [= <- <-]. now rewrite resume_alone.
  - unfold run_callback. rewrite Hcb. now intros [= <- <-].
  - unfold run_callback. rewrite Hcb. now intros [= <- <-].
Qed.

Lemma single_run self qd tmpl w s :
  progress_callback = None ->
  reachable self [qd] tmpl w s ->
  exists t,
    tasks s = [t]
    /\ run_alone self qd tmpl t (world s)
       = fst (query_with_retry (query_processor self) (q_question qd)
                (q_id qd) tmpl w).
Proof.
  intros Hcb Hrun. unfold reachable in Hrun.
  remember (initial self [qd] w) as s0 eqn:Hs0.
  induction Hrun as [s|s s' s'' Hrun IH Hstep].
  - subst s. exists TWaiting. split; [reflexivity|].
    cbn [initial world run_alone]. unfold query_with_retry.
    now rewrite Nat.sub_0_r.
  - destruct (IH Hs0) as (t & Hts & Hres). subst s.
    assert (invariant self [qd] s') as [Htasks _ _]
      by (eapply run_invariant; [exact Hrun | apply initial_invariant]).
    rewrite Hts in Htasks.
    apply Forall2_cons_1 in Htasks as [Hok _].
    destruct Hstep as [i s' s'' Hstep].
    unfold step_at in Hstep. rewrite Hts in Hstep.
    destruct i as [|i]; [|now destruct i].
    cbn [lookup list_lookup] in Hstep.
    assert (forall t' sem0 w',
              run_alone self qd tmpl t' w' = run_alone self qd tmpl t (world s') ->
              exists t0,
                tasks (put 0 t' sem0 w' s') = [t0]
                /\ run_alone self qd tmpl t0 (world (put 0 t' sem0 w' s'))
                   = fst (query_with_retry (query_processor self)
                            (q_question qd) (q_id qd) tmpl w)) as Hput.
    { intros t' sem0 w' Heq. exists t'. cbn [put tasks world].
      rewrite Hts. split; [reflexivity|]. now rewrite Heq. }
    destruct t as [|a lr le|d a lr le|r|e|r].
    + destruct (0 <? sem s')%Z; [|discriminate Hstep].
      injection Hstep as <-. apply Hput.
      rewrite resume_alone by exact Hcb. reflexivity.
    + destruct (advance _ _ _ _ _ _) as [[t' w']|] eqn:Hadv;
        [|discriminate Hstep].
      injection Hstep as <-. apply Hput. eapply advance_alone; eauto.
    + destruct (advance _ _ _ _ _ _) as [[t' w']|] eqn:Hadv;
        [|discriminate Hstep].
      injection Hstep as <-. apply Hput. eapply advance_alone; eauto.
    + destruct (advance _ _ _ _ _ _) as [[t' w']|] eqn:Hadv;
        [|discriminate Hstep].
      injection Hstep as <-. apply Hput. eapply advance_alone; eauto.
    + destruct (advance _ _ _ _ _ _) as [[t' w']|] eqn:Hadv;
        [|discriminate Hstep].
      injection Hstep as <-. apply Hput. eapply advance_alone; eauto.
    + discriminate Hstep.
Qed.

(** X19.  A batch of one question without progress callback is one call of
    [query_with_retry]: when the batch has finished, its only task holds the
    record that [query_with_retry] returns for that question from the same
    world, the world is the one that call leaves, and [process_batch]
    returns the list of that one record. *)
Theorem single_question_batch self qd tmpl w s :
  progress_callback = None ->
  reachable self [qd] tmpl w s ->
  all_done s = true ->
  exists rec,
    query_with_retry (query_processor self) (q_question qd) (q_id qd) tmpl w
    = (Ok rec, world s,
       snd (query_with_retry (query_processor self) (q_question qd) (q_id qd)
              tmpl w))
    /\ tasks s = [TDone (Ok rec)]
    /\ processed_results [qd] (tasks s) = Some (Ok [rec]).
Proof.
  intros Hcb Hrun Hdone.
  destruct (single_run self qd tmpl w s Hcb Hrun) as (t & Hts & Hres).
  unfold all_done in Hdone. rewrite Hts in Hdone. cbn [forallb] in Hdone.
  destruct t as [| | | | |r]; try discriminate Hdone.
  cbn [run_alone] in Hres.
  destruct (retry_loop_returns (query_processor self) (q_question qd)
              (q_id qd) tmpl (attempts (query_processor self)) O None None w)
    as (rec & w' & log & E & _).
  unfold query_with_retry in *. rewrite E in *. cbn [fst snd] in *.
  injection Hres as -> ->.
  exists rec. rewrite Hts. repeat split.
Qed.

(** X20.  With a concurrency limit of 0 no task ever passes the semaphore:
    the batch stays in its initial state whatever the event loop does, and
    for a list of at least one question [process_batch] never returns. *)
Theorem zero_limit_blocks self qs tmpl w :
  concurrent_limit self = 0%Z ->
  (forall s, reachable self qs tmpl w s -> s = initial self qs w)
  /\ (qs <> [] -> forall r, ~ process_batch self qs tmpl w r).
Proof.
  intros Hzero.
  assert (forall s, reachable self qs tmpl w s -> s = initial self qs w)
    as Hstuck.
  { intros s Hrun. unfold reachable in Hrun.
    remember (initial self qs w) as s0 eqn:Hs0.
    induction Hrun as [s|s s' s'' _ IH Hstep]; [reflexivity|].
    specialize (IH Hs0). subst s'. exfalso.
    destruct Hstep as [i s' s'' Hstep]. subst s'.
    unfold step_at, initial in Hstep. cbn [tasks sem] in Hstep.
    rewrite list_lookup_fmap in Hstep.
    destruct (qs !! i) as [qd|]; [|discriminate Hstep].
    cbn in Hstep. rewrite Hzero in Hstep. discriminate Hstep. }
  split; [exact Hstuck|].
  intros Hne r (s & Hrun & Hdone & _).
  apply Hstuck in Hrun. subst s.
  destruct qs as [|qd qs']; [now destruct Hne|].
  discriminate Hdone.
Qed.
End Pipeline.

(** ** The modules without parameters *)

(** *** The rows a script processes *)

(** X14.  Which rows the scripts process, for a table of [len] rows.
    Without a count the rows from [start_row] on are taken (none when
    [start_row] is past the end).  With a count [n] and a first row inside
    the table, at most [n] rows from [start_row] on are taken.  With a count
    and a first row at or past the end of the table, the whole table is
    processed again rather than nothing. *)
Theorem select_rows_cases {A} (df : list A) (start_row : Z) :
  (0 <= start_row)%Z ->
  select_rows None start_row df = drop (Z.to_nat start_row) df
  /\ (forall n, (0 < n)%Z ->
        (start_row < Z.of_nat (List.length df))%Z ->
        select_rows (Some n) start_row df
        = take (Z.to_nat n) (drop (Z.to_nat start_row) df))
  /\ (forall n, (Z.of_nat (List.length df) <= start_row)%Z ->
        select_rows (Some n) start_row df = df).
Proof.
  intros Hs. unfold select_rows, iloc_from, iloc, slice_index.
  set (len := Z.of_nat (List.length df)).
  assert (0 <= len)%Z as Hlen by (unfold len; lia).
  split; [|split].
  - destruct (Z.ltb_spec 0 start_row).
    + destruct (Z.ltb_spec start_row 0); [lia|].
      destruct (Z.min_spec start_row len) as [[? ->]|[? ->]]; [reflexivity|].
      rewrite !drop_ge; [reflexivity | lia | unfold len; lia].
    + now replace start_row with 0%Z by lia.
  - intros n Hn Hin.
    destruct (Z.leb_spec len start_row); [lia|].
    destruct (Z.ltb_spec start_row 0); [lia|].
    replace (Z.min start_row len) with start_row by lia.
    destruct (Z.ltb_spec len (start_row + n)).
    + rewrite take_ge; [reflexivity|]. rewrite length_drop. unfold len in *. lia.
    + destruct (Z.ltb_spec (start_row + n) 0); [lia|].
      replace (Z.min (start_row + n) len) with (start_row + n)%Z by lia.
      now replace (start_row + n - start_row)%Z with n by lia.
  - intros n Hout. now destruct (Z.leb_spec len start_row); [|lia].
Qed.

(** X15.  The scripts read the same command line differently:
    [fill_test_set.py] counts the first question from 1, the two testers
    count the first row from 0.  The first takes with [k + 1] the rows the
    others take with [k]; a missing, unreadable or too small second argument
    means the first row for all three, and a first argument that is missing,
    unreadable or not positive means no limit. *)
Theorem command_line_rows {A} (df : list A) (num : option Z) :
  (forall k, (0 <= k)%Z ->
     rows_of_fill [num; Some (k + 1)%Z] df = rows_of_test [num; Some k] df)
  /\ (forall k, (k <= 0)%Z ->
        rows_of_fill [num; Some k] df = rows_of_test [num] df
        /\ rows_of_test [num; Some k] df = rows_of_test [num] df)
  /\ rows_of_fill [num; None] df = rows_of_test [num] df
  /\ rows_of_fill [num] df = rows_of_test [num] df
  /\ (forall n rest, (n <= 0)%Z ->
        rows_of_test (Some n :: rest) df = rows_of_test (None :: rest) df
        /\ rows_of_fill (Some n :: rest) df = rows_of_fill (None :: rest) df)
  /\ rows_of_test [] df = df /\ rows_of_fill [] df = df.
Proof.
  unfold rows_of_fill, rows_of_test, arg_start_question, arg_start_row,
    arg_num_questions.
  repeat split.
  - intros k Hk. destruct (Z.ltb_spec (k + 1) 1); [lia|].
    destruct (Z.ltb_spec k 0); [lia|]. now replace (k + 1 - 1)%Z with k by lia.
  - destruct (Z.ltb_spec k 1); [reflexivity | lia].
  - destruct (Z.ltb_spec k 0); [reflexivity|]. now replace k with 0%Z by lia.
  - destruct (Z.leb_spec n 0); [reflexivity | lia].
  - destruct (Z.leb_spec n 0); [reflexivity | lia].
Qed.

(** *** [arxiv_to_paper_mapping.py] *)

Lemma dict_of_none (items : list (str * str)) :
  forall (m : gmap (list N) (list N)) k,
    fold_left (fun m kv => <[fst kv := snd kv]> m) items m !! k = None
    <-> m !! k = None /\ ~ In k (map fst items).
Proof.
  induction items as [|[k' v'] items IH]; intros m k; cbn [fold_left map fst snd].
  - cbn. tauto.
  - rewrite IH. cbn [In]. destruct (decide (k' = k)) as [->|Hne].
    + rewrite lookup_insert_eq. split; [intros [[=] _] | intros [_ H]].
      destruct H. now left.
    + rewrite lookup_insert_ne by exact Hne. tauto.
Qed.

Lemma dict_of_some (items : list (str * str)) :
  forall (m : gmap (list N) (list N)) k v,
    fold_left (fun m kv => <[fst kv := snd kv]> m) items m !! k = Some v ->
    m !! k = Some v \/ In (k, v) items.
Proof.
  induction items as [|[k' v'] items IH]; intros m k v; cbn [fold_left fst snd].
  - now left.
  - intros H. apply IH in H as [H|H]; [|right; now right].
    destruct (decide (k' = k)) as [->|Hne].
    + rewrite lookup_insert_eq in H. injection H as ->. right. now left.
    + rewrite lookup_insert_ne in H by exact Hne. now left.
Qed.

Lemma dict_of_lookup_none items k :
  Arxiv.dict_of items !! k = None <-> ~ In k (map fst items).
Proof.
  unfold Arxiv.dict_of. rewrite dict_of_none, lookup_empty. tauto.
Qed.

Lemma dict_of_lookup_some items k v :
  Arxiv.dict_of items !! k = Some v -> In (k, v) items.
Proof.
  unfold Arxiv.dict_of. intros [H|H]%dict_of_some; [|exact H].
  now rewrite lookup_empty in H.
Qed.

(** X17.  The table as the module defines it.  Three of the 32 items written
    in the literal repeat an earlier key, each with the same paper, so every
    item written is what a lookup finds, and the table has 29 entries.  No
    paper identifier is empty, so [get_paper_id_from_arxiv] returns the
    empty string exactly for the identifiers that are not in the table. *)
Theorem initial_table :
  (forall arxiv_id paper_id,
     In (arxiv_id, paper_id) Arxiv.entries ->
     Arxiv.get_paper_id_from_arxiv Arxiv.ARXIV_TO_PAPER_MAPPING arxiv_id
     = paper_id)
  /\ size Arxiv.ARXIV_TO_PAPER_MAPPING = 29%nat
  /\ (forall arxiv_id,
        Arxiv.get_paper_id_from_arxiv Arxiv.ARXIV_TO_PAPER_MAPPING arxiv_id = []
        <-> ~ In arxiv_id (map fst Arxiv.entries)).
Proof.
  assert (List.Forall
            (fun kv => Arxiv.get_paper_id_from_arxiv
                         Arxiv.ARXIV_TO_PAPER_MAPPING (fst kv) = snd kv
                       /\ snd kv <> [])
            Arxiv.entries) as Hall.
  { unfold Arxiv.entries.
    repeat (apply List.Forall_cons;
            [split; [vm_compute; reflexivity | discriminate]|]).
    apply List.Forall_nil. }
  rewrite List.Forall_forall in Hall.
  split; [|split].
  - intros k v Hin. exact (proj1 (Hall _ Hin)).
  - vm_compute. reflexivity.
  - intros k. unfold Arxiv.get_paper_id_from_arxiv, Arxiv.ARXIV_TO_PAPER_MAPPING.
    pose proof (dict_of_lookup_none Arxiv.entries k) as Hnone.
    pose proof (dict_of_lookup_some Arxiv.entries k) as Hsome.
    destruct (Arxiv.dict_of Arxiv.entries !! k) as [v|];
      unfold default, from_option, Datatypes.id.
    + specialize (Hsome v eq_refl). split.
      * intros Hv. destruct (proj2 (Hall _ Hsome) Hv).
      * intros Hnot. destruct Hnot. apply in_map_iff. now exists (k, v).
    + tauto.
Qed.

(** X18.  [add_mapping] followed by [get_paper_id_from_arxiv]: the identifier
    added maps to the paper given, replacing what it mapped to before, and
    every other identifier maps to what it did.  Hence a mapping to the empty
    string makes a known identifier look unknown. *)
Theorem add_mapping_lookup table arxiv_id paper_id :
  Arxiv.get_paper_id_from_arxiv (Arxiv.add_mapping table arxiv_id paper_id)
    arxiv_id = paper_id
  /\ (forall other,
        other <> arxiv_id ->
        Arxiv.get_paper_id_from_arxiv
          (Arxiv.add_mapping table arxiv_id paper_id) other
        = Arxiv.get_paper_id_from_arxiv table other)
  /\ (forall paper_id',
        Arxiv.add_mapping (Arxiv.add_mapping table arxiv_id paper_id)
          arxiv_id paper_id'
        = Arxiv.add_mapping table arxiv_id paper_id')
  /\ Arxiv.get_paper_id_from_arxiv (Arxiv.add_mapping table arxiv_id [])
       arxiv_id
     = Arxiv.get_paper_id_from_arxiv ∅ arxiv_id.
Proof.
  unfold Arxiv.get_paper_id_from_arxiv, Arxiv.add_mapping.
  repeat split.
  - now rewrite lookup_insert_eq.
  - intros other Hne. now rewrite lookup_insert_ne.
  - intros v. apply insert_insert_eq.
  - now rewrite lookup_insert_eq, lookup_empty.
Qed.

(** ** Runs in the concrete environment *)

Abbreviation demo_parse :=
  (parse_answer Demo.re_search Demo.str_lower Demo.py_str Demo.num_truthy
     Demo.pyd_coerce_scalar).
Abbreviation demo_query :=
  (query_with_retry Demo.re_search Demo.str_lower Demo.py_str Demo.num_truthy
     Demo.pyd_coerce_scalar Demo.exn_str Demo.W).
Abbreviation demo_loop :=
  (retry_loop Demo.re_search Demo.str_lower Demo.py_str Demo.num_truthy
     Demo.pyd_coerce_scalar Demo.exn_str Demo.W).
Abbreviation demo_failure :=
  (_create_failure_record Demo.py_str Demo.num_truthy Demo.pyd_coerce_scalar
     Demo.exn_str).
Abbreviation demo_schedule :=
  (run_schedule Demo.re_search Demo.str_lower Demo.py_str Demo.num_truthy
     Demo.pyd_coerce_scalar Demo.exn_str Demo.W).
Abbreviation demo_results :=
  (processed_results Demo.py_str Demo.num_truthy Demo.pyd_coerce_scalar
     Demo.exn_str).
Abbreviation demo_slot :=
  (slot_result Demo.py_str Demo.num_truthy Demo.pyd_coerce_scalar
     Demo.exn_str).

Example loads_object :
  Json.loads (jlit "{'answer': null, 'ref_id': ['a', 1.5e3]}")
  = Some (PDict [(lit "answer", PNone);
                 (lit "ref_id", PList [PStr (lit "a"); PNum (lit "1.5e3")])]).
Proof. vm_compute. reflexivity. Qed.

Example parse_labelled_answer :
  demo_parse (lit "Answer: 42") (lit "q1") (lit "What?")
  = Ok (Some {| id := lit "q1"; question := lit "What?"; answer := lit "42";
                answer_value := is_blank; answer_unit := is_blank;
                ref_id := []; supporting_materials := is_blank;
                explanation := is_blank |}).
Proof. vm_compute. reflexivity. Qed.

(** Four calls, three sleeps of 1, 2 and 3 times the base delay. *)
Example exhausted_run :
  snd (demo_query Demo.shrug Demo.config (lit "What?") (lit "q1") None 0%nat)
  = [EAsk (lit "What?") None; ESleep 1; EAsk (lit "What?") None; ESleep 2;
     EAsk (lit "What?") None; ESleep 3; EAsk (lit "What?") None].
Proof. vm_compute. reflexivity. Qed.

Lemma retry_bound_witness :
  exists rec w' log,
    demo_query Demo.shrug Demo.config (lit "What?") (lit "q1") None 0%nat
    = (Ok rec, w', log)
    /\ ask_count log = 4%nat
    /\ answer rec = failure_marker
    /\ answer_value rec = is_blank
    /\ answer_unit rec = is_blank
    /\ ref_id rec = [].
Proof.
  apply (retry_bound Demo.re_search Demo.str_lower Demo.py_str Demo.num_truthy
           Demo.pyd_coerce_scalar Demo.exn_str Demo.W Demo.shrug Demo.config
           (lit "What?") (lit "q1") None 0%nat).
  - reflexivity.
  - intros w. exists (lit "no idea"), (S w). split; [reflexivity|].
    intros r H. vm_compute in H. discriminate H.
Defined.

Lemma query_never_raises_witness :
  (exists rec w' log,
     demo_query (Demo.scripted []) Demo.config (lit "What?") (lit "q1") None
       0%nat = (Ok rec, w', log))
  /\ (exists rec,
        demo_loop (Demo.scripted []) Demo.config (lit "What?") (lit "q1") None
          1 3 None None 0%nat
        = (Ok rec, 1%nat, [EAsk (lit "What?") None])
        /\ answer rec = failure_marker
        /\ supporting_materials rec
           = strip (failure_marker ++ lit ": " ++ lit "timeout")).
Proof.
  destruct (query_never_raises Demo.re_search Demo.str_lower Demo.py_str
              Demo.num_truthy Demo.pyd_coerce_scalar Demo.exn_str Demo.W
              (Demo.scripted []) Demo.config (lit "What?") (lit "q1") None)
    as (Hret & _ & _ & _ & Hlast).
  split.
  - apply Hret.
  - apply (Hlast 3%nat None None 0%nat (Raise (ExternalError (lit "timeout")))
             1%nat None (ExternalError (lit "timeout")) None);
      reflexivity.
Defined.

Lemma no_retry_on_success_witness :
  let rec :=
    {| id := lit "q1"; question := lit "What?"; answer := lit "42";
       answer_value := is_blank; answer_unit := is_blank; ref_id := [];
       supporting_materials := is_blank; explanation := is_blank |} in
  demo_query (Demo.scripted [Ok (lit "Answer: 42")]) Demo.config
    (lit "What?") (lit "q1") None 0%nat
  = (Ok rec, 1%nat, [EAsk (lit "What?") None])
  /\ ask_count [EAsk (lit "What?") None] = 1%nat
  /\ (0 <= _calculate_quality_score rec)%Q
  /\ (_calculate_quality_score rec <= 1)%Q.
Proof.
  intros rec.
  apply (no_retry_on_success Demo.re_search Demo.str_lower Demo.py_str
           Demo.num_truthy Demo.pyd_coerce_scalar Demo.exn_str Demo.W
           (Demo.scripted [Ok (lit "Answer: 42")]) Demo.config
           (lit "What?") (lit "q1") None 0%nat (lit "Answer: 42") 1%nat rec).
  - vm_compute. discriminate.
  - reflexivity.
  - vm_compute. reflexivity.
Defined.

(** The record of that run scores 0.3, below the threshold of 0.7. *)
Example low_quality_is_returned :
  (_calculate_quality_score
     {| id := lit "q1"; question := lit "What?"; answer := lit "42";
        answer_value := is_blank; answer_unit := is_blank; ref_id := [];
        supporting_materials := is_blank; explanation := is_blank |}
   < quality_threshold Demo.config)%Q.
Proof. vm_compute. reflexivity. Qed.

Example parse_ref_id_samples :
  parse_ref_id Demo.num_truthy (PStr (lit " is_blank ")) = PList []
  /\ parse_ref_id Demo.num_truthy (PStr (jlit "['smith2020', 'lee2021']"))
     = PList [PStr (lit "smith2020"); PStr (lit "lee2021")]
  /\ parse_ref_id Demo.num_truthy (PStr (jlit "smith2020, 'lee2021'"))
     = PList [PStr (lit "smith2020"); PStr (lit "lee2021")]
  /\ parse_ref_id Demo.num_truthy (PStr (jlit "[smith2020, lee2021]"))
     = PList [PStr (lit "[smith2020"); PStr (lit "lee2021]")]
  /\ parse_ref_id Demo.num_truthy (PStr (jlit " 'smith2020' "))
     = PList [PStr (lit "smith2020")].
Proof. vm_compute. repeat split. Qed.

Lemma parse_ref_id_cases_witness :
  parse_ref_id Demo.num_truthy (PStr (jlit " smith2020, 'lee2021' "))
  = PList [PStr (lit "smith2020"); PStr (lit "lee2021")]
  /\ parse_ref_id Demo.num_truthy (PStr (jlit "['smith2020']"))
     = PList [PStr (lit "smith2020")]
  /\ parse_ref_id Demo.num_truthy (PStr (lit "   ")) = PList [].
Proof.
  split; [|split].
  - destruct (parse_ref_id_cases Demo.num_truthy
                (jlit " smith2020, 'lee2021' ")) as (_ & _ & Hcomma & _).
    apply Hcomma.
    + vm_compute. discriminate.
    + vm_compute. discriminate.
    + left. reflexivity.
    + reflexivity.
  - destruct (parse_ref_id_cases Demo.num_truthy (jlit "['smith2020']"))
      as (_ & Hjson & _).
    apply Hjson.
    + vm_compute. discriminate.
    + vm_compute. discriminate.
    + reflexivity.
    + vm_compute. reflexivity.
  - destruct (parse_ref_id_cases Demo.num_truthy (lit "   ")) as (Hblank & _).
    apply Hblank. right. reflexivity.
Defined.

(** Lists of 0, 1 and 3 elements; the last one holds a quote, a backslash, a
    line break, a letter outside ASCII and a character outside the basic
    plane. *)
Lemma ref_id_round_trip_witness :
  ref_id_field Demo.num_truthy Demo.pyd_coerce_scalar (PStr (csv_ref_id []))
  = Ok []
  /\ ref_id_field Demo.num_truthy Demo.pyd_coerce_scalar
       (PStr (csv_ref_id [lit "smith2020"]))
     = Ok [lit "smith2020"]
  /\ ref_id_field Demo.num_truthy Demo.pyd_coerce_scalar
       (PStr (csv_ref_id [lit "a"; [34; 92; 10; 0xe9; 0x1F600]; []]))
     = Ok [lit "a"; [34; 92; 10; 0xe9; 0x1F600]; []].
Proof.
  split; [|split];
    apply (ref_id_round_trip Demo.num_truthy Demo.pyd_coerce_scalar);
    reflexivity.
Defined.

Example dumps_sample :
  csv_ref_id [lit "a"; [34; 0xe9; 0x1F600]]
  = jlit "['a', '\'\u00e9\ud83d\ude00']".
Proof. vm_compute. reflexivity. Qed.

(** C8, as stated, fails.  A response of at most 200 characters is not
    copied: the white space around it is removed, so that a response of
    white space only leaves an empty [explanation], neither the response
    nor the placeholder; and a response of more than 200 characters yields
    209 characters, the label included. *)
Lemma failure_explanation_not_copy :
  (exists rec,
     demo_failure (lit "q1") (lit "What?") (Some (lit " ok ")) None = Ok rec
     /\ explanation rec = lit "ok"
     /\ explanation rec <> lit " ok ")
  /\ (exists rec,
        demo_failure (lit "q1") (lit "What?") (Some [10]) None = Ok rec
        /\ explanation rec = []
        /\ explanation rec <> [10]
        /\ explanation rec <> no_response)
  /\ (exists rec,
        demo_failure (lit "q1") (lit "What?") (Some (repeat 120 201)) None
        = Ok rec
        /\ List.length (explanation rec) = 209%nat
        /\ explanation rec <> repeat 120 200 ++ ellipsis).
Proof.
  split; [|split]; eexists; (split; [vm_compute; reflexivity|]);
    vm_compute; repeat split; discriminate.
Defined.

Lemma get_statistics_total_witness :
  (exists st, get_statistics (Demo.batch 2) [] = Ok st)
  /\ forall rec,
       demo_failure (lit "q1") (lit "What?") None None = Ok rec ->
       forall st, get_statistics (Demo.batch 2) [rec] = Ok st ->
       average_quality_score st = 0%Q /\ successful st = 0%Z
       /\ failed st = total st.
Proof.
  destruct (get_statistics_total (Demo.batch 2)) as (Htotal & _ & Hnone).
  split; [apply Htotal|].
  intros rec Hrec st. apply Hnone.
  vm_compute in Hrec. injection Hrec as <-. reflexivity.
Defined.

Example statistics_sample :
  get_statistics (Demo.batch 2)
    [{| id := lit "q1"; question := lit "What?"; answer := lit "42";
        answer_value := lit "42"; answer_unit := is_blank; ref_id := [];
        supporting_materials := is_blank; explanation := is_blank |};
     {| id := lit "q2"; question := lit "Why?"; answer := failure_marker;
        answer_value := is_blank; answer_unit := is_blank; ref_id := [];
        supporting_materials := parse_failure; explanation := no_response |}]
  = Ok {| total := 2; successful := 1; failed := 1;
          success_rate := (1 / 2)%Q;
          average_quality_score := ((0 + (3 # 10) + (2 # 10)) / 1)%Q;
          stat_quality_threshold := 7 # 10 |}.
Proof. reflexivity. Qed.

(** Three questions, three slots; the second task is the last to finish. *)
Example batch_order_sample :
  let s := demo_schedule Demo.echo None (Demo.batch 3) Demo.three None
             [0; 1; 2; 0; 2; 1]%nat
             (initial Demo.W (Demo.batch 3) Demo.three 0%nat) in
  all_done Demo.W s = true
  /\ sem Demo.W s = 3%Z
  /\ match demo_results Demo.three (tasks Demo.W s) with
     | Some (Ok rs) =>
         map (fun r => (id r, answer r)) rs
         = [(lit "q1", lit "The answer is: Question 1");
            (lit "q2", lit "The answer is: Question 2");
            (lit "q3", lit "The answer is: Question 3")]
     | _ => False
     end.
Proof. vm_compute. repeat split. Qed.

(** A callback that raises on every call: each task ends in an exception
    and each slot holds the failure record of its own question. *)
Example batch_crash_sample :
  let s := demo_schedule Demo.echo Demo.failing_callback (Demo.batch 3)
             Demo.three None [0; 1; 2; 0; 2; 2; 1; 0; 1; 1; 2; 0]%nat
             (initial Demo.W (Demo.batch 3) Demo.three 0%nat) in
  all_done Demo.W s = true
  /\ sem Demo.W s = 3%Z
  /\ tasks Demo.W s
     = [TDone (Raise (ExternalError (lit "callback")));
        TDone (Raise (ExternalError (lit "callback")));
        TDone (Raise (ExternalError (lit "callback")))]
  /\ match demo_results Demo.three (tasks Demo.W s) with
     | Some (Ok rs) =>
         map (fun r => (id r, answer r, supporting_materials r)) rs
         = [(lit "q1", failure_marker, failure_marker ++ lit ": callback");
            (lit "q2", failure_marker, failure_marker ++ lit ": callback");
            (lit "q3", failure_marker, failure_marker ++ lit ": callback")]
     | _ => False
     end.
Proof. vm_compute. repeat split. Qed.

Lemma process_batch_ordered_witness :
  let s := demo_schedule Demo.echo None (Demo.batch 3) Demo.three None
             [0; 1; 2; 0; 2; 1]%nat
             (initial Demo.W (Demo.batch 3) Demo.three 0%nat) in
  let s0 := demo_schedule Demo.echo None (Demo.batch 3) Demo.three None
              [0; 1]%nat (initial Demo.W (Demo.batch 3) Demo.three 0%nat) in
  (exists rs,
     demo_results Demo.three (tasks Demo.W s) = Some (Ok rs)
     /\ List.length rs = List.length Demo.three
     /\ forall i qd t,
          Demo.three !! i = Some qd -> tasks Demo.W s !! i = Some t ->
          exists r, rs !! i = Some r
                    /\ id r = q_id qd /\ question r = q_question qd
                    /\ demo_slot qd t r)
  /\ (exists s',
        run Demo.re_search Demo.str_lower Demo.py_str Demo.num_truthy
          Demo.pyd_coerce_scalar Demo.exn_str Demo.W Demo.echo None
          (Demo.batch 3) Demo.three None s0 s'
        /\ all_done Demo.W s' = true).
Proof.
  intros s s0.
  destruct (process_batch_ordered Demo.re_search Demo.str_lower Demo.py_str
              Demo.num_truthy Demo.pyd_coerce_scalar Demo.exn_str Demo.W
              Demo.echo None (Demo.batch 3) Demo.three None 0%nat)
    as (Hfinished & _ & _ & Hends).
  split.
  - apply Hfinished; [apply run_schedule_run | reflexivity].
  - apply Hends; [reflexivity | apply run_schedule_run].
Defined.

(** Two slots, five questions: with tasks 0 and 1 in flight task 2 cannot
    pass the semaphore; once task 0 has ended, task 3 can. *)
Example gate_sample :
  let s := demo_schedule Demo.echo None (Demo.batch 2) Demo.five None
             [0; 1]%nat (initial Demo.W (Demo.batch 2) Demo.five 0%nat) in
  sem Demo.W s = 0%Z
  /\ map in_flight (tasks Demo.W s) = [true; true; false; false; false]
  /\ step_at Demo.re_search Demo.str_lower Demo.py_str Demo.num_truthy
       Demo.pyd_coerce_scalar Demo.exn_str Demo.W Demo.echo None
       (Demo.batch 2) Demo.five None 2 s = None
  /\ map in_flight
       (tasks Demo.W
          (demo_schedule Demo.echo None (Demo.batch 2) Demo.five None
             [2; 0; 3]%nat s))
     = [false; true; false; true; false].
Proof. vm_compute. repeat split. Qed.

Lemma concurrency_bound_witness :
  let s := demo_schedule Demo.shrug None (Demo.batch 2) Demo.five None
             [0; 1; 2; 0; 0; 3; 1]%nat
             (initial Demo.W (Demo.batch 2) Demo.five 0%nat) in
  (in_flight_count Demo.W s <= 2)%nat
  /\ (sem Demo.W s + Z.of_nat (in_flight_count Demo.W s) = 2)%Z
  /\ (0 <= sem Demo.W s)%Z
  /\ (all_done Demo.W s = true -> sem Demo.W s = 2%Z).
Proof.
  intros s.
  apply (concurrency_bound Demo.re_search Demo.str_lower Demo.py_str
           Demo.num_truthy Demo.pyd_coerce_scalar Demo.exn_str Demo.W
           Demo.shrug None (Demo.batch 2) Demo.five None 0%nat s).
  - reflexivity.
  - reflexivity.
  - apply run_schedule_run.
Defined.

(** A task that sleeps before its retry still holds its slot. *)
Example sleeping_holds_slot :
  let s := demo_schedule Demo.shrug None (Demo.batch 2) Demo.five None
             [0; 1; 0; 1]%nat
             (initial Demo.W (Demo.batch 2) Demo.five 0%nat) in
  tasks Demo.W s
  = [TSleep 1 1 (Some (lit "no idea")) None;
     TSleep 1 1 (Some (lit "no idea")) None;
     TWaiting; TWaiting; TWaiting]
  /\ sem Demo.W s = 0%Z
  /\ in_flight_count Demo.W s = 2%nat.
Proof. vm_compute. repeat split. Qed.

(** ** Runs of the further properties *)

Abbreviation demo_sync :=
  (test_single_question_sync Demo.re_search Demo.str_lower Demo.py_str
     Demo.num_truthy Demo.pyd_coerce_scalar Demo.exn_str Demo.W).
Abbreviation demo_test_batch :=
  (test_batch Demo.re_search Demo.str_lower Demo.py_str Demo.num_truthy
     Demo.pyd_coerce_scalar Demo.exn_str Demo.W).
Abbreviation demo_record :=
  (new_RAGAnswer Demo.py_str Demo.num_truthy Demo.pyd_coerce_scalar).
Abbreviation demo_field_value :=
  (extract_field_value Demo.re_search Demo.str_lower).
Abbreviation demo_reachable :=
  (reachable Demo.re_search Demo.str_lower Demo.py_str Demo.num_truthy
     Demo.pyd_coerce_scalar Demo.exn_str Demo.W).

Lemma extracted_record_ids_witness :
  let r :=
    {| id := lit "q1"; question := lit "What?"; answer := lit "42";
       answer_value := is_blank; answer_unit := is_blank; ref_id := [];
       supporting_materials := is_blank; explanation := is_blank |} in
  demo_parse (lit "Answer: 42") (lit "q1") (lit "What?") = Ok (Some r)
  /\ id r = lit "q1" /\ question r = lit "What?".
Proof.
  intros r.
  assert (demo_parse (lit "Answer: 42") (lit "q1") (lit "What?")
          = Ok (Some r)) as H by (vm_compute; reflexivity).
  split; [exact H|].
  exact (extracted_record_ids Demo.re_search Demo.str_lower Demo.py_str
           Demo.num_truthy Demo.pyd_coerce_scalar _ _ _ _ H).
Defined.

Lemma blank_text_fails_witness :
  forallb isspace [32; 10; 9] = true
  /\ demo_parse [32; 10; 9] (lit "q1") (lit "What?") = Ok None.
Proof.
  split; [reflexivity|].
  apply (blank_text_fails Demo.re_search Demo.str_lower Demo.py_str
           Demo.num_truthy Demo.pyd_coerce_scalar).
  reflexivity.
Defined.


(** An object whose answer is the sentinel is returned as a record. *)
Lemma blank_answer_only_from_object_witness :
  let r :=
    {| id := lit "q1"; question := lit "What?"; answer := is_blank;
       answer_value := is_blank; answer_unit := is_blank; ref_id := [];
       supporting_materials := is_blank; explanation := is_blank |} in
  demo_parse (jlit "{'answer': 'is_blank'}") (lit "q1") (lit "What?")
  = Ok (Some r)
  /\ exists span items,
       brace_span (strip (jlit "{'answer': 'is_blank'}")) = Some span
       /\ Json.loads span = Some (PDict items).
Proof.
  intros r.
  assert (demo_parse (jlit "{'answer': 'is_blank'}") (lit "q1") (lit "What?")
          = Ok (Some r)) as H by (vm_compute; reflexivity).
  split; [exact H|].
  exact (blank_answer_only_from_object Demo.re_search Demo.str_lower
           Demo.py_str Demo.num_truthy Demo.pyd_coerce_scalar _ _ _ _ H
           eq_refl).
Defined.


Lemma text_fields_stripped_witness :
  let r :=
    {| id := lit "q1"; question := lit "What?"; answer := lit "42 kg";
       answer_value := lit "42"; answer_unit := lit "kg"; ref_id := [];
       supporting_materials := lit "see table 2"; explanation := [] |} in
  demo_record (PStr (lit "q1")) (PStr (lit "What?")) (PStr (lit "42 kg"))
    (PStr (lit " 42 ")) (PStr (lit "kg ")) (PList [])
    (PStr [10; 115; 101; 101; 32; 116; 97; 98; 108; 101; 32; 50; 10])
    (PStr (lit "   "))
  = Ok r
  /\ strip (answer_value r) = answer_value r
  /\ strip (answer_unit r) = answer_unit r
  /\ strip (supporting_materials r) = supporting_materials r
  /\ strip (explanation r) = explanation r.
Proof.
  intros r.
  assert (demo_record (PStr (lit "q1")) (PStr (lit "What?"))
            (PStr (lit "42 kg")) (PStr (lit " 42 ")) (PStr (lit "kg "))
            (PList [])
            (PStr [10; 115; 101; 101; 32; 116; 97; 98; 108; 101; 32; 50; 10])
            (PStr (lit "   "))
          = Ok r) as H by (vm_compute; reflexivity).
  split; [exact H|].
  exact (text_fields_stripped Demo.py_str Demo.num_truthy
           Demo.pyd_coerce_scalar _ _ _ _ _ _ _ _ _ H).
Defined.

Lemma quality_score_extremes_witness :
  let full :=
    {| id := lit "q1"; question := lit "What?"; answer := lit "42 kg";
       answer_value := lit "42"; answer_unit := lit "kg";
       ref_id := [lit "smith2020"];
       supporting_materials := lit "table 2"; explanation := lit "read" |} in
  let bare := answer_only (lit "q1") (lit "What?") (lit "42 kg") in
  let none := answer_only (lit "q1") (lit "What?") is_blank in
  (_calculate_quality_score full == 1)%Q
  /\ (_calculate_quality_score none == 0)%Q
  /\ (3 # 10 <= _calculate_quality_score bare)%Q.
Proof.
  intros full bare none. split; [|split].
  - apply (proj1 (proj2 (quality_score_extremes Demo.str_lower full))).
    repeat split.
  - apply (proj1 (quality_score_extremes Demo.str_lower none)).
    repeat split.
  - apply (proj2 (proj2 (quality_score_extremes Demo.str_lower bare))).
    reflexivity.
Defined.

Lemma statistics_bounds_witness :
  let results :=
    [{| id := lit "q1"; question := lit "What?"; answer := lit "42";
        answer_value := lit "42"; answer_unit := is_blank; ref_id := [];
        supporting_materials := is_blank; explanation := is_blank |};
     {| id := lit "q2"; question := lit "Why?"; answer := failure_marker;
        answer_value := is_blank; answer_unit := is_blank; ref_id := [];
        supporting_materials := parse_failure; explanation := no_response |}]
  in
  let st :=
    {| total := 2; successful := 1; failed := 1; success_rate := (1 / 2)%Q;
       average_quality_score := ((0 + (3 # 10) + (2 # 10)) / 1)%Q;
       stat_quality_threshold := 7 # 10 |} in
  get_statistics (Demo.batch 2) results = Ok st
  /\ (successful st + failed st = total st)%Z
  /\ (success_rate st <= 1)%Q
  /\ (average_quality_score st <= 1)%Q.
Proof.
  intros results st.
  assert (get_statistics (Demo.batch 2) results = Ok st) as H by reflexivity.
  split; [exact H|].
  destruct (statistics_bounds (Demo.batch 2) results st H)
    as (_ & _ & Hsum & _ & _ & Hrate & _ & Havg & _).
  exact (conj Hsum (conj Hrate Havg)).
Defined.

Lemma linear_backoff_witness :
  exists k,
    snd (demo_query Demo.shrug Demo.config (lit "What?") (lit "q1") None 0%nat)
    = backoff_log Demo.config (lit "What?") None 0 k
    /\ (1 <= k)%nat /\ (k <= 4)%nat.
Proof.
  destruct (linear_backoff Demo.re_search Demo.str_lower Demo.py_str
              Demo.num_truthy Demo.pyd_coerce_scalar Demo.exn_str Demo.W
              Demo.shrug Demo.config (lit "What?") (lit "q1") None 0%nat)
    as (k & Hlog & Hle & Hpos).
  exists k. split; [exact Hlog|]. split; [|exact Hle].
  apply Hpos. vm_compute. discriminate.
Defined.

Lemma negative_retries_witness :
  (max_retries Demo.no_attempts < 0)%Z
  /\ demo_query Demo.echo Demo.no_attempts (lit "What?") (lit "q1") None 0%nat
     = (Ok {| id := lit "q1"; question := lit "What?";
              answer := failure_marker; answer_value := is_blank;
              answer_unit := is_blank; ref_id := [];
              supporting_materials := parse_failure;
              explanation := no_response |}, 0%nat, []).
Proof.
  split; [reflexivity|].
  apply (negative_retries Demo.re_search Demo.str_lower Demo.py_str
           Demo.num_truthy Demo.pyd_coerce_scalar Demo.exn_str Demo.W
           Demo.echo Demo.no_attempts).
  reflexivity.
Defined.


(** Two questions, one pause between them. *)
Example test_batch_sample :
  let '(results, _, log) := demo_test_batch Demo.lightrag_unit Demo.rows 2 0%nat
  in
  match results with
  | Ok rs =>
      map (fun r => (id r, answer r)) rs
      = [(lit "q1", lit "The answer is given in kWh");
         (lit "q2", lit "The answer is given in tCO2e")]
  | Raise _ => False
  end
  /\ log = [BQuestion (lit "q1") [EAsk (lit "Question 1") None]; BPause 2;
            BQuestion (lit "q2") [EAsk (lit "Question 2") None]].
Proof. vm_compute. repeat split. Qed.

Lemma select_rows_cases_witness :
  let df := [10; 20; 30; 40; 50]%Z in
  select_rows None 1 df = [20; 30; 40; 50]%Z
  /\ select_rows (Some 2%Z) 1 df = [20; 30]%Z
  /\ select_rows (Some 9%Z) 3 df = [40; 50]%Z
  /\ select_rows (Some 2%Z) 5 df = df
  /\ select_rows None 5 df = [].
Proof.
  intros df.
  destruct (select_rows_cases df 1) as (Hfrom & Hcount & _);
    [vm_compute; discriminate|].
  destruct (select_rows_cases df 3) as (_ & Hclip & _);
    [vm_compute; discriminate|].
  destruct (select_rows_cases df 5) as (Hpast & _ & Hall);
    [vm_compute; discriminate|].
  split; [exact Hfrom|]. split; [apply Hcount; reflexivity|].
  split; [apply Hclip; reflexivity|].
  split; [apply Hall; vm_compute; discriminate | exact Hpast].
Defined.

Lemma command_line_rows_witness :
  let df := [10; 20; 30; 40; 50]%Z in
  rows_of_fill [Some 2%Z; Some 3%Z] df = rows_of_test [Some 2%Z; Some 2%Z] df
  /\ rows_of_fill [Some 2%Z; Some 0%Z] df = rows_of_test [Some 2%Z] df
  /\ rows_of_test [Some (-1)%Z; Some 3%Z] df = rows_of_test [None; Some 3%Z] df.
Proof.
  intros df.
  destruct (command_line_rows df (Some 2%Z)) as (Hshift & Hsmall & _).
  destruct (command_line_rows df None) as (_ & _ & _ & _ & Hcount & _).
  split; [apply (Hshift 2%Z); vm_compute; discriminate|].
  split; [apply (Hsmall 0%Z); vm_compute; discriminate|].
  apply (Hcount (-1)%Z [Some 3%Z]). vm_compute. discriminate.
Defined.


Lemma initial_table_witness :
  Arxiv.get_paper_id_from_arxiv Arxiv.ARXIV_TO_PAPER_MAPPING (lit "2504.06307")
  = lit "khan2025"
  /\ Arxiv.get_paper_id_from_arxiv Arxiv.ARXIV_TO_PAPER_MAPPING
       (lit "0000.00000") = [].
Proof.
  destruct initial_table as (Hitem & _ & Hunknown).
  split.
  - apply Hitem. unfold Arxiv.entries.
    do 12 right. left. reflexivity.
  - apply Hunknown. unfold Arxiv.entries. cbn [map fst In].
    intros H.
    repeat (destruct H as [H|H]; [vm_compute in H; discriminate H|]).
    exact H.
Defined.

Lemma add_mapping_lookup_witness :
  let table :=
    Arxiv.add_mapping Arxiv.ARXIV_TO_PAPER_MAPPING (lit "1706.03762")
      (lit "vaswani2017") in
  Arxiv.get_paper_id_from_arxiv table (lit "1706.03762") = lit "vaswani2017"
  /\ Arxiv.get_paper_id_from_arxiv table (lit "2104.10350")
     = Arxiv.get_paper_id_from_arxiv Arxiv.ARXIV_TO_PAPER_MAPPING
         (lit "2104.10350").
Proof.
  intros table.
  destruct (add_mapping_lookup Arxiv.ARXIV_TO_PAPER_MAPPING (lit "1706.03762")
              (lit "vaswani2017")) as (Hnew & Hother & _).
  split; [exact Hnew|].
  apply Hother. vm_compute. discriminate.
Defined.

Lemma single_question_batch_witness :
  let s := demo_schedule Demo.echo None (Demo.batch 3) [Demo.item "1"] None
             [0; 0]%nat
             (initial Demo.W (Demo.batch 3) [Demo.item "1"] 0%nat) in
  exists rec,
    demo_query Demo.echo Demo.config (lit "Question 1") (lit "q1") None 0%nat
    = (Ok rec, world Demo.W s,
       snd (demo_query Demo.echo Demo.config (lit "Question 1") (lit "q1")
              None 0%nat))
    /\ tasks Demo.W s = [TDone (Ok rec)]
    /\ demo_results [Demo.item "1"] (tasks Demo.W s) = Some (Ok [rec]).
Proof.
  intros s.
  apply (single_question_batch Demo.re_search Demo.str_lower Demo.py_str
           Demo.num_truthy Demo.pyd_coerce_scalar Demo.exn_str Demo.W
           Demo.echo None (Demo.batch 3) (Demo.item "1") None 0%nat s).
  - reflexivity.
  - apply run_schedule_run.
  - reflexivity.
Defined.

Lemma zero_limit_blocks_witness :
  concurrent_limit (Demo.batch 0) = 0%Z
  /\ demo_schedule Demo.echo None (Demo.batch 0) Demo.three None
       [0; 1; 2; 0]%nat (initial Demo.W (Demo.batch 0) Demo.three 0%nat)
     = initial Demo.W (Demo.batch 0) Demo.three 0%nat.
Proof.
  split; [reflexivity|].
  apply (zero_limit_blocks Demo.re_search Demo.str_lower Demo.py_str
           Demo.num_truthy Demo.pyd_coerce_scalar Demo.exn_str Demo.W
           Demo.echo None (Demo.batch 0) Demo.three None 0%nat eq_refl).
  apply run_schedule_run.
Defined.
